(** * ecocompute-ai: the carbon-aware scheduler, its job queue, carbon
    signal client and emissions ledger

    A shallow embedding of [backend/job_queue.py], [backend/carbon_api.py],
    [backend/emissions_tracker.py] and [backend/carbon_scheduler.py].

    Conventions of the embedding.
    - A Python object that is mutated in place and shared between containers
      (a [GPUJob] held both by [JobQueue.jobs] and by the list returned from
      [get_prioritized_queue]) is identified by its position in
      [JobQueue.jobs]; that list is only ever appended to.
    - A method that mutates [self] takes the state and returns the new state
      together with what Python returns or raises ([outcome]).
    - Python [int] is [Z]; a finite [float] is the rational it denotes ([Q]);
      the values that a JSON number can take beyond those (nan, the
      infinities) are kept where the code compares them ([pynum]).
    - [datetime.now()] is a reading of the clock handed to the operation, in
      microseconds; the external world (HTTP response, random draw, the
      CodeCarbon reading) is handed to the operation as well. *)

From Stdlib Require Import ZArith QArith Qminmax Lia Sorted Permutation.
From stdpp Require Import base list strings.

Local Open Scope Z_scope.
Set Warnings "-register-all".

(** ** What a Python call produces *)

Inductive exn : Type :=
  | ValidationError
  | NotFound
  | InvalidTransition
  | TrackingAlreadyActive
  | NoActiveTracking
  | KeyError (key : string)
  | ValueError
  | TypeError
  | AttributeError
  | RequestException
  | JSONDecodeError.

Inductive outcome (A : Type) : Type :=
  | Returned (a : A)
  | Raised (e : exn).
Arguments Returned {A} a.
Arguments Raised {A} e.

Definition timestamp : Type := Z.

(** ** Numbers as the code compares them *)

Inductive pynum : Type :=
  | PFin (q : Q)
  | PNaN
  | PInf (negative : bool).

Definition Qltb (x y : Q) : bool := negb (Qle_bool y x).

(** [x < n] for a Python number [x] and an [int] [n]. *)
Definition num_lt (x : pynum) (n : Z) : bool :=
  match x with
  | PFin q => Qltb q (inject_Z n)
  | PNaN => false
  | PInf negative => negative
  end.

(** [x >= n], the mathematical comparison (false on nan). *)
Definition num_ge (x : pynum) (n : Z) : bool :=
  match x with
  | PFin q => Qle_bool (inject_Z n) q
  | PNaN => false
  | PInf negative => negb negative
  end.

(** [x > n]. *)
Definition num_gt (x : pynum) (n : Z) : bool :=
  match x with
  | PFin q => Qltb (inject_Z n) q
  | PNaN => false
  | PInf negative => negb negative
  end.

(** [x < y] for two Python numbers: false as soon as one is nan. *)
Definition pynum_lt (x y : pynum) : bool :=
  match x, y with
  | PNaN, _ | _, PNaN => false
  | PFin a, PFin b => Qltb a b
  | PFin _, PInf negative => negb negative
  | PInf negative, PFin _ => negative
  | PInf n1, PInf n2 => n1 && negb n2
  end.

(** ** The builtin [min(iterable, key=...)]

    The first item is the candidate; a later item replaces it when its key
    is strictly smaller.  On no item at all Python raises [ValueError]. *)

Section Min.
Context {A : Type} (key : A → pynum).

Fixpoint min_from (best : A) (l : list A) : A :=
  match l with
  | [] => best
  | x :: l' => min_from (if pynum_lt (key x) (key best) then x else best) l'
  end.

Definition py_min (l : list A) : outcome A :=
  match l with
  | [] => Raised ValueError
  | x :: l' => Returned (min_from x l')
  end.
End Min.

(** ** The builtin [sorted(l, key=..., reverse=True)]

    Python's sort is stable, also with [reverse=True]: elements with equal
    keys keep the order they have in the input.  An element is therefore put
    in front of the first element whose key is not larger than its own. *)

Section Sorted.
Context {A : Type} (key : A → Z).

(** The order of the result: keys do not increase. *)
Definition descending (x y : A) : Prop := key y <= key x.

Fixpoint insert_reverse (x : A) (l : list A) : list A :=
  match l with
  | [] => [x]
  | y :: l' =>
      if key y <=? key x then x :: y :: l' else y :: insert_reverse x l'
  end.

Fixpoint sorted_reverse (l : list A) : list A :=
  match l with
  | [] => []
  | x :: l' => insert_reverse x (sorted_reverse l')
  end.
End Sorted.

(** ** backend/job_queue.py *)

Module JobQueue.

Inductive JobStatus : Type :=
  | PENDING
  | SCHEDULED
  | RUNNING
  | COMPLETED
  | DEFERRED.

#[export] Instance JobStatus_eq_dec : EqDecision JobStatus.
Proof. solve_decision. Defined.

Record GPUJob : Type := mkGPUJob {
  job_id : string;
  name : string;
  duration_minutes : Z;
  power_draw_watts : Z;
  priority : Z;
  status : JobStatus;
  carbon_intensity_threshold : Z;
  submitted_at : timestamp;
  scheduled_for : option timestamp;
  emissions_avoided_kg : Q
}.

(** [GPUJob(job_id, name, duration_minutes, power_draw_watts, priority,
    carbon_intensity_threshold=...)]: the other fields take their
    defaults, [submitted_at] the clock. *)
Definition new_job (job_id name : string)
    (duration_minutes power_draw_watts priority threshold : Z)
    (now : timestamp) : GPUJob :=
  mkGPUJob job_id name duration_minutes power_draw_watts priority PENDING
    threshold now None 0.

Definition set_status (s : JobStatus) (j : GPUJob) : GPUJob :=
  mkGPUJob (job_id j) (name j) (duration_minutes j) (power_draw_watts j)
    (priority j) s (carbon_intensity_threshold j) (submitted_at j)
    (scheduled_for j) (emissions_avoided_kg j).

Definition set_scheduled_for (t : timestamp) (j : GPUJob) : GPUJob :=
  mkGPUJob (job_id j) (name j) (duration_minutes j) (power_draw_watts j)
    (priority j) (status j) (carbon_intensity_threshold j) (submitted_at j)
    (Some t) (emissions_avoided_kg j).

Definition set_emissions_avoided_kg (e : Q) (j : GPUJob) : GPUJob :=
  mkGPUJob (job_id j) (name j) (duration_minutes j) (power_draw_watts j)
    (priority j) (status j) (carbon_intensity_threshold j) (submitted_at j)
    (scheduled_for j) e.

(** [self.jobs]; the file snapshot written by [save_jobs] is the same list
    and is not modelled apart. *)
Abbreviation jobs_t := (list GPUJob).

(** [add_job]: append, save, return the id. *)
Definition add_job (jobs : jobs_t) (job : GPUJob)
  : jobs_t * outcome string :=
  (jobs ++ [job], Returned (job_id job)).

Definition get_jobs_by_status (jobs : jobs_t) (s : JobStatus) : list GPUJob :=
  filter (λ j, status j = s) jobs.

(** [update_job_status]: the first job with that id gets the status. *)
Fixpoint update_job_status (jobs : jobs_t) (id : string) (new_status : JobStatus)
  : jobs_t * bool :=
  match jobs with
  | [] => ([], false)
  | job :: rest =>
      if String.eqb (job_id job) id
      then (set_status new_status job :: rest, true)
      else let '(rest', found) := update_job_status rest id new_status in
           (job :: rest', found)
  end.

Definition get_prioritized_queue (jobs : jobs_t) : list GPUJob :=
  let pending := get_jobs_by_status jobs PENDING in
  sorted_reverse priority pending.

(** The same list as positions in [self.jobs]: the objects it holds are
    the ones of [self.jobs]. *)
Definition enumerate (jobs : jobs_t) : list (nat * GPUJob) :=
  zip (seq 0 (length jobs)) jobs.

Definition prioritized_refs (jobs : jobs_t) : list nat :=
  let pending := filter (λ p, status p.2 = PENDING) (enumerate jobs) in
  (sorted_reverse (λ p, priority p.2) pending).*1.

(** [calculate_emissions_for_job]: kW * h * 0.8 kg CO2/kWh. *)
Definition calculate_emissions_for_job (job : GPUJob) : Q :=
  let power_kw := (inject_Z (power_draw_watts job) / 1000)%Q in
  let duration_h := (inject_Z (duration_minutes job) / 60)%Q in
  let carbon_intensity := (8 # 10)%Q in
  (power_kw * duration_h * carbon_intensity)%Q.

End JobQueue.

(** ** backend/carbon_api.py *)

Module CarbonApi.

(** A parsed JSON document, as [response.json()] returns it.  A number is
    an [int] or a [float] and the parser also accepts [NaN] and the
    infinities; [True] and [False] compare as 1 and 0.  An object is the
    [dict] built from it, looked up by key. *)
Inductive pyval : Type :=
  | VNone
  | VBool (b : bool)
  | VNum (x : pynum)
  | VStr (s : string)
  | VList (l : list pyval)
  | VDict (d : list (string * pyval)).

Fixpoint dict_get (d : list (string * pyval)) (k : string) : option pyval :=
  match d with
  | [] => None
  | (k', v) :: d' => if String.eqb k' k then Some v else dict_get d' k
  end.

(** What [requests.get(url, params=params, timeout=5)] does: it raises
    (timeout, connection error), or it returns a response with a status
    code and a body that parses as JSON or not. *)
Inductive http : Type :=
  | Failed
  | Response (status_code : Z) (json : option pyval).

Inductive Greenness : Type := HIGH | MEDIUM | LOW.

Record GridStatus : Type := mkGridStatus {
  carbonIntensity : pynum;
  timestamp_ : timestamp;
  greenness : Greenness;
  recommendation : string;
  region : string;
  unit_ : string;
  (** the key ['is_mock'], present (and [True]) only in mock data *)
  is_mock : bool
}.

(** [random.randint(a, b)], from the generator's raw draw. *)
Definition randint (a b raw : Z) : Z := a + raw mod (b - a + 1).

Definition mock_data : list (string * Z) :=
  [("IN", 800); ("US", 400); ("DE", 350); ("NO", 50); ("AU", 600)]%string.

Fixpoint mock_data_get (d : list (string * Z)) (k : string) (default : Z) : Z :=
  match d with
  | [] => default
  | (k', v) :: d' => if String.eqb k' k then v else mock_data_get d' k default
  end.

Definition _get_mock_data (region : string) (raw : Z) (now : timestamp)
  : GridStatus :=
  let intensity := mock_data_get mock_data region 500 in
  let intensity := intensity + randint (-100) 100 raw in
  let '(greenness, rec) :=
    if intensity <? 200 then (HIGH, "✅ Schedule jobs NOW"%string)
    else if intensity <? 400 then (MEDIUM, "⏳ Monitor grid"%string)
    else (LOW, "❌ Defer jobs"%string) in
  mkGridStatus (PFin (inject_Z intensity)) now greenness rec region
    "gCO2/kWh" true.

(** The value of [carbon_intensity] as a number, when [<] accepts it. *)
Definition as_number (v : pyval) : outcome pynum :=
  match v with
  | VNum x => Returned x
  | VBool b => Returned (PFin (if b then 1 else 0)%Q)
  | VNone | VStr _ | VList _ | VDict _ => Raised TypeError
  end.

(** The body of the [try]. *)
Definition fetch (region : string) (resp : http) (raw : Z) (now : timestamp)
  : outcome GridStatus :=
  match resp with
  | Failed => Raised RequestException
  | Response status_code json =>
      if status_code =? 200 then
        match json with
        | None => Raised JSONDecodeError
        | Some (VDict data) =>
            let carbon_intensity :=
              default (VNum (PFin 500)) (dict_get data "carbonIntensity") in
            match as_number carbon_intensity with
            | Raised e => Raised e
            | Returned x =>
                let '(greenness, recommendation) :=
                  if num_lt x 200
                  then (HIGH, "✅ Schedule jobs NOW - Clean grid"%string)
                  else if num_lt x 400
                  then (MEDIUM, "⏳ Wait for better conditions"%string)
                  else (LOW, "❌ Defer jobs - Dirty grid"%string) in
                Returned (mkGridStatus x now greenness recommendation region
                            "gCO2/kWh" false)
            end
        | Some _ => Raised AttributeError
        end
      else Returned (_get_mock_data region raw now)
  end.

(** [get_grid_carbon_intensity]: the [try] and its [except Exception]. *)
Definition get_grid_carbon_intensity
    (region : string) (resp : http) (raw : Z) (now : timestamp)
  : GridStatus :=
  match fetch region resp raw now with
  | Returned grid_status => grid_status
  | Raised _ => _get_mock_data region raw now
  end.

(** [comparison[region] = status]: a key that is there keeps its place. *)
Fixpoint dict_set (d : list (string * GridStatus)) (k : string) (v : GridStatus)
  : list (string * GridStatus) :=
  match d with
  | [] => [(k, v)]
  | (k', v') :: d' =>
      if String.eqb k' k then (k', v) :: d' else (k', v') :: dict_set d' k v
  end.

(** The loop of [get_multi_region_comparison]; [world n] is what the
    [n]-th request and random draw of the loop give. *)
Fixpoint compare_regions (regions : list string) (world : nat → http * Z)
    (n : nat) (now : timestamp) (comparison : list (string * GridStatus))
  : list (string * GridStatus) :=
  match regions with
  | [] => comparison
  | region :: regions' =>
      let '(resp, raw) := world n in
      compare_regions regions' world (S n) now
        (dict_set comparison region
           (get_grid_carbon_intensity region resp raw now))
  end.

Record Comparison : Type := mkComparison {
  regions_ : list (string * GridStatus);
  greenest_region : string;
  greenest_intensity : pynum;
  comparison_timestamp : timestamp
}.

Definition get_multi_region_comparison
    (regions : list string) (world : nat → http * Z) (now : timestamp)
  : outcome Comparison :=
  let comparison := compare_regions regions world 0 now [] in
  match py_min (λ item, carbonIntensity item.2) comparison with
  | Raised e => Raised e
  | Returned (greenest_region_code, greenest_data) =>
      Returned (mkComparison comparison greenest_region_code
                  (carbonIntensity greenest_data) now)
  end.

End CarbonApi.

(** ** backend/emissions_tracker.py *)

Module EmissionsTracker.

(** The CodeCarbon tracker object held in [self.tracker]: the online one
    when its constructor succeeds, the offline one otherwise.  What its
    [stop()] measures is handed to [stop_tracking]. *)
Inductive instrument : Type :=
  | EmissionsTracker (project_name : string)
  | OfflineEmissionsTracker (country_iso_code : string).

Record EmissionsRecord : Type := mkRecord {
  job_name : string;
  emissions_kg_co2 : Q;
  duration_seconds : Q;
  timestamp_ : timestamp;
  country : string
}.

(** [current_job] and [start_time] exist as attributes only once
    [start_tracking] has run. *)
Record GPUEmissionsTracker : Type := mkTracker {
  country_code : string;
  tracker : option instrument;
  emissions_log : list EmissionsRecord;
  current_job : option string;
  start_time : option timestamp
}.

(** [GPUEmissionsTracker(country_code)] on a fresh data directory. *)
Definition init (country_code : string) : GPUEmissionsTracker :=
  mkTracker country_code None [] None None.

Definition start_tracking
    (self : GPUEmissionsTracker) (job_name : string)
    (online : bool) (now : timestamp)
  : GPUEmissionsTracker * outcome unit :=
  let tracker :=
    if online then EmissionsTracker ("greengl_" +:+ job_name)
    else OfflineEmissionsTracker (country_code self) in
  (mkTracker (country_code self) (Some tracker) (emissions_log self)
     (Some job_name) (Some now),
   Returned ()).

(** [stop_tracking]; [None] is the empty dict [{}]. *)
Definition stop_tracking
    (self : GPUEmissionsTracker) (emissions : Q) (now : timestamp)
  : GPUEmissionsTracker * outcome (option EmissionsRecord) :=
  match tracker self with
  | None => (self, Returned None)
  | Some _ =>
      match start_time self, current_job self with
      | Some started, Some current =>
          let duration := (inject_Z (now - started) / 1000000)%Q in
          let record :=
            mkRecord current emissions duration now (country_code self) in
          (mkTracker (country_code self) (tracker self)
             (emissions_log self ++ [record])
             (current_job self) (start_time self),
           Returned (Some record))
      | _, _ => (self, Raised AttributeError)
      end
  end.

Definition Qsum (l : list Q) : Q := foldr Qplus 0%Q l.

Definition get_total_emissions (self : GPUEmissionsTracker) : Q :=
  Qsum (emissions_kg_co2 <$> emissions_log self).

(** [get_emissions_summary]: the dict returned, key by key.  The pandas
    aggregations are taken over the rationals. *)
Definition get_emissions_summary (self : GPUEmissionsTracker)
  : list (string * Q) :=
  match emissions_log self with
  | [] =>
      [("total_jobs", 0); ("total_emissions_kg", 0);
       ("avg_emissions_per_job_kg", 0); ("total_duration_hours", 0)]%Q
  | r :: rs =>
      let emissions := emissions_kg_co2 <$> (r :: rs) in
      let durations := duration_seconds <$> (r :: rs) in
      [("total_jobs", inject_Z (Z.of_nat (length (r :: rs))));
       ("total_emissions_kg", Qsum emissions);
       ("avg_emissions_per_job_kg",
         Qsum emissions / inject_Z (Z.of_nat (length emissions)));
       ("total_duration_hours", Qsum durations / 3600);
       ("max_single_job_kg",
         foldr Qmax (emissions_kg_co2 r) (emissions_kg_co2 <$> rs));
       ("min_single_job_kg",
         foldr Qmin (emissions_kg_co2 r) (emissions_kg_co2 <$> rs))]%Q
  end.

(** [summary[key]]: the value, or [KeyError]. *)
Fixpoint getitem (d : list (string * Q)) (key : string) : outcome Q :=
  match d with
  | [] => Raised (KeyError key)
  | (k, v) :: d' => if String.eqb k key then Returned v else getitem d' key
  end.

End EmissionsTracker.

(** ** backend/carbon_scheduler.py *)

Module CarbonScheduler.
Import JobQueue.

(** One entry of [schedule_history]; the two job lists are the [asdict]
    snapshots taken when the result is built, after the loop. *)
Record ScheduleResult : Type := mkResult {
  timestamp_ : timestamp;
  region : string;
  current_carbon_intensity : pynum;
  grid_greenness : CarbonApi.Greenness;
  scheduled_count : nat;
  deferred_count : nat;
  total_scheduled_jobs : nat;
  estimated_emissions_saved_kg : Q;
  scheduled_jobs : list GPUJob;
  deferred_jobs : list GPUJob
}.

Record CarbonAwareScheduler : Type := mkScheduler {
  job_queue : jobs_t;
  emissions_tracker : EmissionsTracker.GPUEmissionsTracker;
  schedule_history : list ScheduleResult
}.

Definition six_hours : Z := 6 * 3600 * 1000000.

(** One turn of the loop of [schedule_pending_jobs], on the job object at
    position [i]; [scheduled] and [deferred] hold object references. *)
Definition schedule_job (carbon_intensity : pynum) (now : timestamp)
    (acc : jobs_t * list nat * list nat) (i : nat)
  : jobs_t * list nat * list nat :=
  let '(jobs, scheduled, deferred) := acc in
  match jobs !! i with
  | None => acc
  | Some job =>
      if num_lt carbon_intensity (carbon_intensity_threshold job) then
        let jobs := (update_job_status jobs (job_id job) SCHEDULED).1 in
        let jobs := alter (set_scheduled_for now) i jobs in
        (jobs, scheduled ++ [i], deferred)
      else
        let jobs := (update_job_status jobs (job_id job) DEFERRED).1 in
        let reschedule_time := now + six_hours in
        let jobs := alter (set_scheduled_for reschedule_time) i jobs in
        (jobs, scheduled, deferred ++ [i])
  end.

Definition schedule_pending_jobs
    (self : CarbonAwareScheduler) (region : string)
    (resp : CarbonApi.http) (raw : Z) (now : timestamp)
  : CarbonAwareScheduler * ScheduleResult :=
  let grid_status :=
    CarbonApi.get_grid_carbon_intensity region resp raw now in
  let carbon_intensity := CarbonApi.carbonIntensity grid_status in
  let greenness := CarbonApi.greenness grid_status in
  let pending_jobs := prioritized_refs (job_queue self) in
  let '(jobs, scheduled, deferred) :=
    foldl (schedule_job carbon_intensity now)
      (job_queue self, [], []) pending_jobs in
  let deref := omap (λ i, jobs !! i) in
  let result :=
    mkResult now region carbon_intensity greenness
      (length scheduled) (length deferred) (length scheduled)
      (EmissionsTracker.Qsum
         (calculate_emissions_for_job <$> deref deferred))
      (deref scheduled) (deref deferred) in
  (mkScheduler jobs (emissions_tracker self)
     (schedule_history self ++ [result]),
   result).

(** What [run_scheduled_job] returns. *)
Inductive RunResult : Type :=
  | Error (error : string)
  | Completed (job_id : string) (emissions_kg_co2 duration_seconds : Q).

(** [run_scheduled_job].  [online] tells which CodeCarbon tracker could be
    built, [emissions] is what its [stop()] measures, [started] and
    [stopped] are the clock when tracking starts and stops. *)
Definition run_scheduled_job
    (self : CarbonAwareScheduler) (id : string)
    (online : bool) (emissions : Q) (started stopped : timestamp)
  : CarbonAwareScheduler * outcome RunResult :=
  match list_find (λ j, job_id j = id) (job_queue self) with
  | None => (self, Returned (Error "Job not found"))
  | Some (i, job) =>
      let jobs := (update_job_status (job_queue self) id RUNNING).1 in
      let '(tracker, _) :=
        EmissionsTracker.start_tracking
          (emissions_tracker self) (name job) online started in
      (* time.sleep rejects a negative length *)
      if Z.min 5 (duration_minutes job) <? 0 then
        (mkScheduler jobs tracker (schedule_history self), Raised ValueError)
      else
        match EmissionsTracker.stop_tracking tracker emissions stopped with
        | (tracker, Raised e) =>
            (mkScheduler jobs tracker (schedule_history self), Raised e)
        | (tracker, Returned None) =>
            (mkScheduler jobs tracker (schedule_history self),
             Raised (KeyError "emissions_kg_co2"))
        | (tracker, Returned (Some emissions_record)) =>
            let e := EmissionsTracker.emissions_kg_co2 emissions_record in
            let jobs := alter (set_emissions_avoided_kg e) i jobs in
            let jobs := (update_job_status jobs id COMPLETED).1 in
            (mkScheduler jobs tracker (schedule_history self),
             Returned
               (Completed id e
                  (EmissionsTracker.duration_seconds emissions_record)))
        end
  end.

Record DashboardStats : Type := mkStats {
  total_jobs_submitted : nat;
  pending : nat;
  scheduled : nat;
  completed : nat;
  total_emissions_kg : Q;
  emissions_avoided_kg_ : Q;
  avg_job_emissions_kg : Q;
  stats_schedule_history : list ScheduleResult
}.

(** [l[-n:]]. *)
Definition last_n {A : Type} (n : nat) (l : list A) : list A :=
  drop (length l - n) l.

Definition get_dashboard_stats (self : CarbonAwareScheduler)
  : outcome DashboardStats :=
  let total_emissions :=
    EmissionsTracker.get_emissions_summary (emissions_tracker self) in
  let pending := length (get_jobs_by_status (job_queue self) PENDING) in
  let scheduled := length (get_jobs_by_status (job_queue self) SCHEDULED) in
  let completed := length (get_jobs_by_status (job_queue self) COMPLETED) in
  match EmissionsTracker.getitem total_emissions "total_emissions_kg" with
  | Raised e => Raised e
  | Returned total =>
      match EmissionsTracker.getitem total_emissions
              "avg_emissions_per_job_kg" with
      | Raised e => Raised e
      | Returned avg =>
          Returned (mkStats (length (job_queue self)) pending scheduled
                      completed total total avg
                      (last_n 10 (schedule_history self)))
      end
  end.

End CarbonScheduler.

(** ** frontend/dashboard.py: the button that runs the next job *)

Module Dashboard.
Import JobQueue CarbonScheduler.

(** The handler of "Run Next Scheduled Job": [None] when it only warns
    that nothing is scheduled; otherwise what the handler ends with, after
    reading [result['emissions_kg_co2']] for its message. *)
Definition run_next_scheduled_job
    (self : CarbonAwareScheduler)
    (online : bool) (emissions : Q) (started stopped : timestamp)
  : CarbonAwareScheduler * option (outcome Q) :=
  match get_jobs_by_status (job_queue self) SCHEDULED with
  | [] => (self, None)
  | next_job :: _ =>
      match run_scheduled_job self (job_id next_job) online emissions
              started stopped with
      | (self', Raised e) => (self', Some (Raised e))
      | (self', Returned (Error _)) =>
          (self', Some (Raised (KeyError "emissions_kg_co2")))
      | (self', Returned (Completed _ emissions_kg_co2 _)) =>
          (self', Some (Returned emissions_kg_co2))
      end
  end.

End Dashboard.

(** ** Auxiliary definitions for the statements below *)

Module Policy.
Import JobQueue CarbonScheduler.

(** What one turn of the loop of [schedule_pending_jobs] makes of the job
    it handles: the two branches of the [if], as a function on the job. *)
Definition decide_job (carbon_intensity : pynum) (now : timestamp)
    (job : GPUJob) : GPUJob :=
  if num_lt carbon_intensity (carbon_intensity_threshold job)
  then set_scheduled_for now (set_status SCHEDULED job)
  else set_scheduled_for (now + six_hours) (set_status DEFERRED job).

(** The inputs that the spec wants [add] to reject. *)
Definition out_of_range (job : GPUJob) : Prop :=
  priority job < 1 ∨ 5 < priority job
  ∨ duration_minutes job <= 0 ∨ power_draw_watts job <= 0.

(** What [run_scheduled_job] makes of the job it runs. *)
Definition run_job (emissions : Q) (job : GPUJob) : GPUJob :=
  set_status COMPLETED (set_emissions_avoided_kg emissions job).

(** The fields of a job that an evaluation cycle never writes. *)
Definition static (job : GPUJob)
  : string * string * Z * Z * Z * Z * timestamp * Q :=
  (job_id job, name job, duration_minutes job, power_draw_watts job,
   priority job, carbon_intensity_threshold job, submitted_at job,
   emissions_avoided_kg job).

(** The test of the loop, on the job at position [i]. *)
Definition below (carbon_intensity : pynum) (jobs : jobs_t) (i : nat) : bool :=
  match jobs !! i with
  | Some job => num_lt carbon_intensity (carbon_intensity_threshold job)
  | None => false
  end.

End Policy.

Module Signal.
Import CarbonApi.

(** The fixed baseline of a region. *)
Definition baseline (region : string) : Z := mock_data_get mock_data region 500.

(** Within the jitter band of the region: an integer at most 100 away
    from the baseline. *)
Definition in_jitter_band (region : string) (x : pynum) : Prop :=
  ∃ v : Z, x = PFin (inject_Z v)
           ∧ baseline region - 100 <= v <= baseline region + 100.

(** The failures of the fetch as the spec lists them: no response
    (timeout, transport error), a status that is not 2xx, or a payload
    that is malformed, that is, anything but a JSON object with a numeric
    [carbonIntensity]. *)
Definition numeric_intensity (json : option pyval) : option pynum :=
  match json with
  | Some (VDict d) =>
      match dict_get d "carbonIntensity" with
      | Some (VNum x) => Some x
      | _ => None
      end
  | _ => None
  end.

Definition signal_failure (resp : http) : Prop :=
  match resp with
  | Failed => True
  | Response status_code json =>
      ¬ (200 <= status_code < 300) ∨ numeric_intensity json = None
  end.

(** The failures that the code turns into mock data: no response, a
    status other than 200, a body that is no JSON or no JSON object, or
    a [carbonIntensity] that is there and is [null], a string, an array
    or an object. *)
Definition detected_failure (resp : http) : bool :=
  match resp with
  | Failed => true
  | Response status_code json =>
      if status_code =? 200 then
        match json with
        | None => true
        | Some (VDict d) =>
            match dict_get d "carbonIntensity" with
            | Some (VNone | VStr _ | VList _ | VDict _) => true
            | Some (VBool _ | VNum _) | None => false
            end
        | Some _ => true
        end
      else true
  end.

End Signal.

(** ** Concrete states and inputs *)

Module Examples.
Import JobQueue CarbonApi CarbonScheduler.

(** A response with status 200 whose body is [{"carbonIntensity": x}]. *)
Definition ok (x : Q) : http :=
  Response 200 (Some (VDict [("carbonIntensity"%string, VNum (PFin x))])).

Definition train : GPUJob := new_job "3f9a1c07" "train" 30 250 3 400 0.
Definition render : GPUJob := new_job "b81e44d2" "render" 60 300 5 100 0.
Definition deferred_train : GPUJob := set_status DEFERRED train.
Definition completed_train : GPUJob := set_status COMPLETED train.
Definition twin : GPUJob := new_job "3f9a1c07" "twin" 30 250 1 100 0.
Definition archived : GPUJob :=
  set_status COMPLETED (new_job "0d5e77aa" "archive" 10 100 1 400 0).

Definition scheduler_of (jobs : jobs_t) : CarbonAwareScheduler :=
  mkScheduler jobs (EmissionsTracker.init "IN") [].

End Examples.

(** * Properties *)

(** ** The stable descending sort *)

Section SortedFacts.
Context {A : Type} (key : A → Z).

Lemma insert_reverse_perm (x : A) (l : list A) :
  insert_reverse key x l ≡ₚ x :: l.
Proof.
  induction l as [|y l IH]; simpl; [done|].
  destruct (key y <=? key x); [done|].
  rewrite IH. apply perm_swap.
Qed.

Lemma sorted_reverse_perm (l : list A) : sorted_reverse key l ≡ₚ l.
Proof.
  induction l as [|x l IH]; simpl; [done|].
  by rewrite insert_reverse_perm, IH.
Qed.

Lemma insert_reverse_descending (x : A) (l : list A) :
  StronglySorted (descending key) l →
  StronglySorted (descending key) (insert_reverse key x l).
Proof.
  induction 1 as [|y l Hl IH Hy]; simpl.
  - repeat constructor.
  - destruct (Z.leb_spec (key y) (key x)) as [Hle|Hgt].
    + constructor; [by constructor|].
      constructor; [done|].
      eapply Forall_impl; [exact Hy|].
      unfold descending; intros z Hz; lia.
    + constructor; [done|].
      rewrite insert_reverse_perm.
      constructor; [unfold descending; lia|done].
Qed.

Lemma sorted_reverse_descending (l : list A) :
  StronglySorted (descending key) (sorted_reverse key l).
Proof.
  induction l as [|x l IH]; simpl; [constructor|].
  by apply insert_reverse_descending.
Qed.

(** Stability: among the elements of one key the input order is kept. *)
Lemma insert_reverse_stable (p : Z) (x : A) (l : list A) :
  filter (λ y, key y = p) (insert_reverse key x l)
  = filter (λ y, key y = p) (x :: l).
Proof.
  induction l as [|y l IH]; simpl; [done|].
  destruct (Z.leb_spec (key y) (key x)) as [Hle|Hgt]; [done|].
  rewrite filter_cons, IH, !filter_cons.
  destruct (decide (key y = p)) as [Hy|Hy];
    destruct (decide (key x = p)) as [Hx|Hx]; try done.
  lia.
Qed.

Lemma sorted_reverse_stable (p : Z) (l : list A) :
  filter (λ y, key y = p) (sorted_reverse key l) = filter (λ y, key y = p) l.
Proof.
  induction l as [|x l IH]; simpl; [done|].
  by rewrite insert_reverse_stable, !filter_cons, IH.
Qed.
End SortedFacts.

Lemma insert_reverse_fmap {A B : Type} (f : A → B) (key : B → Z) x l :
  insert_reverse key (f x) (f <$> l) = f <$> insert_reverse (key ∘ f) x l.
Proof.
  induction l as [|y l IH]; simpl; [done|].
  destruct (key (f y) <=? key (f x)); simpl; [done|].
  f_equal. exact IH.
Qed.

Lemma sorted_reverse_fmap {A B : Type} (f : A → B) (key : B → Z) l :
  sorted_reverse key (f <$> l) = f <$> sorted_reverse (key ∘ f) l.
Proof.
  induction l as [|x l IH]; [done|].
  change (insert_reverse key (f x) (sorted_reverse key (f <$> l))
          = f <$> insert_reverse (key ∘ f) x (sorted_reverse (key ∘ f) l)).
  rewrite IH. apply insert_reverse_fmap.
Qed.

Lemma filter_snd {A B : Type} (P : B → Prop)
    `{!∀ y, Decision (P y)} (l : list (A * B)) :
  (filter (λ p, P p.2) l).*2 = filter P l.*2.
Proof.
  induction l as [|x l IH]; [done|].
  rewrite fmap_cons, !filter_cons. simpl.
  destruct (decide (P x.2)); [rewrite fmap_cons|]; by rewrite IH.
Qed.

(** ** The job queue *)

Section JobQueueFacts.
Import JobQueue.

(** C8. [get_prioritized_queue] returns exactly the pending jobs (a
    permutation of them), in descending order of priority, and the jobs
    of one priority in the order they have in [self.jobs]. *)
Theorem get_prioritized_queue_stable_descending (jobs : jobs_t) :
  get_prioritized_queue jobs ≡ₚ filter (λ j, status j = PENDING) jobs
  ∧ StronglySorted (λ j1 j2, priority j2 <= priority j1)
      (get_prioritized_queue jobs)
  ∧ ∀ p : Z,
      filter (λ j, priority j = p) (get_prioritized_queue jobs)
      = filter (λ j, priority j = p ∧ status j = PENDING) jobs.
Proof.
  unfold get_prioritized_queue, get_jobs_by_status.
  split; [apply sorted_reverse_perm|].
  split; [apply (sorted_reverse_descending priority)|].
  intros p. rewrite sorted_reverse_stable.
  apply list_filter_filter.
Qed.

End JobQueueFacts.

Section PrioritizedRefs.
Import JobQueue.

Lemma enumerate_lookup (jobs : jobs_t) (i : nat) (job : GPUJob) :
  (i, job) ∈ enumerate jobs ↔ jobs !! i = Some job.
Proof.
  unfold enumerate. rewrite list_elem_of_lookup. split.
  - intros [k Hk]. apply lookup_zip_with_Some in Hk as (x & y & Heq & Hx & Hy).
    apply lookup_seq in Hx as [-> _]. by inversion Heq; subst.
  - intros Hi. exists i. apply lookup_zip_with_Some.
    exists i, job. split_and!; [done| |done].
    apply lookup_seq. split; [done|]. by eapply lookup_lt_Some.
Qed.

(** The positions listed are those of the pending jobs. *)
Lemma prioritized_refs_pending (jobs : jobs_t) (i : nat) :
  i ∈ prioritized_refs jobs
  ↔ ∃ job, jobs !! i = Some job ∧ status job = PENDING.
Proof.
  unfold prioritized_refs. rewrite list_elem_of_fmap. split.
  - intros ([k job] & -> & Hin). exists job.
    rewrite sorted_reverse_perm in Hin.
    apply list_elem_of_filter in Hin as [Hst Hin].
    by apply enumerate_lookup in Hin.
  - intros (job & Hi & Hst). exists (i, job). split; [done|].
    rewrite sorted_reverse_perm. apply list_elem_of_filter.
    split; [done|]. by apply enumerate_lookup.
Qed.

Lemma omap_lookup_fst (jobs : jobs_t) (l : list (nat * GPUJob)) :
  (∀ p, p ∈ l → jobs !! p.1 = Some p.2) →
  omap (λ i, jobs !! i) l.*1 = l.*2.
Proof.
  induction l as [|p l IH]; intros Hl; [done|].
  cbn. rewrite (Hl p) by left. cbn. f_equal.
  apply IH. intros q Hq. apply Hl. by right.
Qed.

(** The objects at the positions listed are the list that
    [get_prioritized_queue] returns. *)
Lemma prioritized_refs_queue (jobs : jobs_t) :
  omap (λ i, jobs !! i) (prioritized_refs jobs) = get_prioritized_queue jobs.
Proof.
  unfold prioritized_refs, get_prioritized_queue, get_jobs_by_status.
  rewrite omap_lookup_fst.
  - etransitivity; [symmetry; apply (sorted_reverse_fmap snd priority)|].
    f_equal.
    pose proof (filter_snd (λ j, status j = PENDING) (enumerate jobs)) as Hf.
    etransitivity; [exact Hf|].
    f_equal.
    unfold enumerate. apply snd_zip. by rewrite length_seq.
  - intros [k job] Hin. rewrite sorted_reverse_perm in Hin.
    apply list_elem_of_filter in Hin as [_ Hin].
    by apply enumerate_lookup in Hin.
Qed.

End PrioritizedRefs.

(** ** The evaluation cycle *)

Section Evaluate.
Import JobQueue CarbonScheduler Policy.

Lemma set_status_job_id s job : job_id (set_status s job) = job_id job.
Proof. done. Qed.

(** With unique ids, the job that [update_job_status] finds by id is the
    object whose id was passed. *)
Lemma update_job_status_alter (jobs : jobs_t) (i : nat) (job : GPUJob) s :
  NoDup (job_id <$> jobs) →
  jobs !! i = Some job →
  update_job_status jobs (job_id job) s = (alter (set_status s) i jobs, true).
Proof.
  revert i. induction jobs as [|j jobs IH]; intros i Hnd Hi; [done|].
  rewrite fmap_cons in Hnd. apply NoDup_cons in Hnd as [Hnin Hnd].
  simpl. destruct (String.eqb_spec (job_id j) (job_id job)) as [Heq|Hne].
  - destruct i as [|i]; simpl in Hi; [done|].
    exfalso. apply Hnin. rewrite Heq.
    apply list_elem_of_fmap_2. by eapply list_elem_of_lookup_2.
  - destruct i as [|i]; simpl in Hi; [congruence|].
    by rewrite (IH i).
Qed.

Lemma decide_job_job_id ci now job :
  job_id (decide_job ci now job) = job_id job.
Proof. unfold decide_job. by destruct (num_lt _ _). Qed.

Lemma decide_job_idemp ci now job :
  decide_job ci now (decide_job ci now job) = decide_job ci now job.
Proof.
  unfold decide_job.
  destruct (num_lt ci (carbon_intensity_threshold job)) eqn:E;
    simpl; by rewrite E.
Qed.

Lemma alter_job_ids (f : GPUJob → GPUJob) (i : nat) (jobs : jobs_t) :
  (∀ job, job_id (f job) = job_id job) →
  job_id <$> alter f i jobs = job_id <$> jobs.
Proof.
  intros Hf. rewrite (list_fmap_alter job_id f id)
    by (apply Forall_forall; intros; apply Hf).
  by apply list_alter_id.
Qed.

(** One turn of the loop, on the job list. *)
Lemma schedule_job_alter ci now (jobs : jobs_t) scheduled deferred i job :
  NoDup (job_id <$> jobs) →
  jobs !! i = Some job →
  (schedule_job ci now (jobs, scheduled, deferred) i).1.1
  = alter (decide_job ci now) i jobs.
Proof.
  intros Hnd Hi. unfold schedule_job. rewrite Hi.
  destruct (num_lt ci (carbon_intensity_threshold job)) eqn:E; simpl;
    rewrite (update_job_status_alter _ i) by done; simpl;
    (etransitivity; [apply list_alter_alter_eq|]);
    apply list_alter_ext; try done;
    intros x Hx; rewrite Hi in Hx; inversion Hx; subst x;
    unfold decide_job; simpl; by rewrite E.
Qed.

(** The loop: every job at a listed position has been decided, the
    others are as they were. *)
Lemma schedule_loop_lookup ci now (refs : list nat) (acc : jobs_t * list nat * list nat) (k : nat) :
  NoDup (job_id <$> acc.1.1) →
  (∀ i, i ∈ refs → is_Some (acc.1.1 !! i)) →
  (foldl (schedule_job ci now) acc refs).1.1 !! k
  = (if decide (k ∈ refs) then decide_job ci now else id) <$> acc.1.1 !! k.
Proof.
  revert acc. induction refs as [|i refs IH]; intros [[jobs sc] df] Hnd Hrefs;
    cbn [fst] in Hnd, Hrefs |- *.
  - cbn [foldl fst]. by destruct (jobs !! k).
  - cbn [foldl]. destruct (Hrefs i) as [job Hi]; [by left|].
    pose proof (schedule_job_alter ci now jobs sc df i job Hnd Hi) as Hstep.
    rewrite IH; rewrite Hstep.
    + destruct (decide (k = i)) as [->|Hne].
      * rewrite list_lookup_alter_eq, Hi. simpl.
        destruct (decide (i ∈ i :: refs)) as [_|Hn];
          [|exfalso; apply Hn; left].
        destruct (decide (i ∈ refs)); simpl; [|done].
        by rewrite decide_job_idemp.
      * rewrite list_lookup_alter_ne by done.
        destruct (decide (k ∈ refs)) as [Hin|Hnin];
          destruct (decide (k ∈ i :: refs)) as [Hin'|Hnin']; try done.
        -- exfalso. apply Hnin'. by right.
        -- apply elem_of_cons in Hin' as [?|?]; done.
    + rewrite alter_job_ids; [done|]. apply decide_job_job_id.
    + intros i' Hi'. apply lookup_lt_is_Some. rewrite length_alter.
      apply lookup_lt_is_Some. apply Hrefs. by right.
Qed.

End Evaluate.

Lemma num_ge_not_lt (x : pynum) (n : Z) : num_ge x n = true → num_lt x n = false.
Proof.
  destruct x as [q| |negative]; simpl; [|done|by destruct negative].
  unfold Qltb. by intros ->.
Qed.

Section EvaluateClaims.
Import JobQueue CarbonApi CarbonScheduler Policy Examples.

Lemma schedule_pending_jobs_lookup self region resp raw now (k : nat) :
  NoDup (job_id <$> job_queue self) →
  job_queue (schedule_pending_jobs self region resp raw now).1 !! k
  = (if decide (k ∈ prioritized_refs (job_queue self))
     then decide_job
            (carbonIntensity (get_grid_carbon_intensity region resp raw now))
            now
     else id) <$> job_queue self !! k.
Proof.
  intros Hnd. unfold schedule_pending_jobs.
  pose proof (schedule_loop_lookup
    (carbonIntensity (get_grid_carbon_intensity region resp raw now)) now
    (prioritized_refs (job_queue self)) (job_queue self, [], []) k Hnd) as H.
  destruct (foldl _ _ _) as [[jobs sc] df]. cbn [fst job_queue] in *.
  apply H. intros i (job & Hi & _)%prioritized_refs_pending. by exists job.
Qed.

End EvaluateClaims.

Section DeferredJobs.
Import JobQueue CarbonApi CarbonScheduler Policy Examples.

(** C2, as the spec states it, fails: a deferred job whose threshold the
    intensity is below is not handled like a pending one. *)
Lemma deferred_job_reevaluated_counterexample :
  ¬ (∀ self region resp raw now (i : nat) job,
       NoDup (job_id <$> job_queue self) →
       job_queue self !! i = Some job →
       status job = DEFERRED →
       job_queue (schedule_pending_jobs self region resp raw now).1 !! i
       = Some (decide_job
                 (carbonIntensity
                    (get_grid_carbon_intensity region resp raw now))
                 now job)).
Proof.
  intros H.
  specialize (H (scheduler_of [deferred_train]) "X"%string (ok 150) 0 1000
                0%nat deferred_train).
  assert (NoDup (job_id <$> job_queue (scheduler_of [deferred_train])))
    as Hnd by (apply (bool_decide_unpack _); vm_compute; exact I).
  specialize (H Hnd eq_refl eq_refl).
  vm_compute in H. discriminate H.
Qed.

(** C2, amended.  An evaluation cycle reads the pending jobs only: a job
    whose status is [DEFERRED] is not in the list the cycle works on and
    (ids being unique) the cycle leaves it as it is. *)
Theorem deferred_job_left_alone self region resp raw now (i : nat) job :
  NoDup (job_id <$> job_queue self) →
  job_queue self !! i = Some job →
  status job = DEFERRED →
  (job ∉ get_prioritized_queue (job_queue self))
  ∧ (i ∉ prioritized_refs (job_queue self))
  ∧ job_queue (schedule_pending_jobs self region resp raw now).1 !! i
    = Some job.
Proof.
  intros Hnd Hi Hst.
  assert (i ∉ prioritized_refs (job_queue self)) as Hnin.
  { intros (job' & Hi' & Hst')%prioritized_refs_pending. congruence. }
  split_and!; [|done|].
  - unfold get_prioritized_queue, get_jobs_by_status.
    rewrite sorted_reverse_perm.
    intros [Hp _]%list_elem_of_filter. congruence.
  - rewrite schedule_pending_jobs_lookup by done.
    rewrite decide_False by done. by rewrite Hi.
Qed.

Lemma deferred_job_left_alone_witness :
  let self := scheduler_of [deferred_train; render] in
  job_queue (schedule_pending_jobs self "X" (ok 150) 0 1000).1 !! 0%nat
  = Some deferred_train.
Proof.
  intros self.
  assert (NoDup (job_id <$> job_queue self)) as Hnd
    by (apply (bool_decide_unpack _); vm_compute; exact I).
  exact (proj2 (proj2 (deferred_job_left_alone self "X" (ok 150) 0 1000
                         0%nat deferred_train Hnd eq_refl eq_refl))).
Defined.

End DeferredJobs.

(** ** Running a job *)

Section RunJob.
Import JobQueue CarbonScheduler Policy Examples.

(** The job that [update_job_status] reaches is the first with the id,
    the one that [next(...)] finds. *)
Lemma update_job_status_first (jobs : jobs_t) id (i : nat) job s :
  list_find (λ j, job_id j = id) jobs = Some (i, job) →
  update_job_status jobs id s = (alter (set_status s) i jobs, true).
Proof.
  revert i. induction jobs as [|j jobs IH]; intros i Hfind; [done|].
  cbn in Hfind. simpl.
  destruct (String.eqb_spec (job_id j) id) as [Heq|Hne].
  - rewrite decide_True in Hfind by done. by inversion Hfind.
  - rewrite decide_False in Hfind by done.
    destruct (list_find _ jobs) as [[i' job']|] eqn:E; [|done].
    inversion Hfind; subst. by rewrite (IH i').
Qed.

Lemma list_find_alter (f : GPUJob → GPUJob) (jobs : jobs_t) id (i : nat) job :
  (∀ j, job_id (f j) = job_id j) →
  list_find (λ j, job_id j = id) jobs = Some (i, job) →
  list_find (λ j, job_id j = id) (alter f i jobs) = Some (i, f job).
Proof.
  intros Hf (Hi & Hid & Hfirst)%list_find_Some. apply list_find_Some.
  split_and!.
  - by rewrite list_lookup_alter_eq, Hi.
  - by rewrite Hf.
  - intros k y Hk Hlt. rewrite list_lookup_alter_ne in Hk by lia.
    by eapply Hfirst.
Qed.

(** C10. For an id that no job of the store has, [run_scheduled_job]
    returns the error result and the whole state (jobs, emissions
    tracker with its bracket and log, schedule history) is as before. *)
Theorem run_scheduled_job_not_found self id online emissions started stopped :
  (∀ job, job ∈ job_queue self → job_id job ≠ id) →
  run_scheduled_job self id online emissions started stopped
  = (self, Returned (Error "Job not found")).
Proof.
  intros Hid. unfold run_scheduled_job.
  destruct (list_find _ _) as [[i job]|] eqn:E; [|done].
  apply list_find_Some in E as (Hi & Heq & _).
  exfalso. eapply Hid; [|exact Heq]. by eapply list_elem_of_lookup_2.
Qed.

Lemma run_scheduled_job_not_found_witness :
  run_scheduled_job (scheduler_of [train; render]) "00000000" true (1 # 2)
    0 5000000
  = (scheduler_of [train; render], Returned (Error "Job not found")).
Proof.
  apply run_scheduled_job_not_found.
  intros job Hin. cbn in Hin.
  apply elem_of_cons in Hin as [->|Hin]; [done|].
  apply elem_of_cons in Hin as [->|Hin]; [done|].
  by apply elem_of_nil in Hin.
Defined.

End RunJob.

Section RunJobStatus.
Import JobQueue CarbonScheduler Policy Examples.

(** C3, as the spec states it, fails: running a completed job raises
    nothing and leaves neither the job nor the ledger as they were. *)
Lemma run_completed_job_counterexample :
  ¬ (∀ self id (i : nat) job online emissions started stopped,
       list_find (λ j, job_id j = id) (job_queue self) = Some (i, job) →
       status job ≠ PENDING →
       status job ≠ SCHEDULED →
       run_scheduled_job self id online emissions started stopped
       = (self, Raised InvalidTransition)).
Proof.
  intros H.
  specialize (H (scheduler_of [completed_train]) "3f9a1c07"%string 0%nat
                completed_train true (1 # 2)%Q 0 5000000 eq_refl).
  assert (status completed_train ≠ PENDING) as H1 by done.
  assert (status completed_train ≠ SCHEDULED) as H2 by done.
  specialize (H H1 H2). vm_compute in H. discriminate H.
Qed.

End RunJobStatus.

(** ** Adding a job *)

Section AddJob.
Import JobQueue Policy Examples.

(** C4, as the spec states it, fails: a job with priority 9 and a
    duration of 0 minutes is not rejected, it is stored. *)
Lemma add_job_validation_counterexample :
  ¬ (∀ jobs job,
       out_of_range job → add_job jobs job = (jobs, Raised ValidationError)).
Proof.
  intros H.
  specialize (H [] (new_job "c0ffee00" "bad" 0 250 9 400 0)).
  assert (out_of_range (new_job "c0ffee00" "bad" 0 250 9 400 0)) as Hbad
    by (unfold out_of_range; simpl; lia).
  specialize (H Hbad). discriminate H.
Qed.

(** C4, amended.  [add_job] validates nothing: every job, whatever its
    priority, duration and power draw, is appended to the store as it is
    and its id is returned; the jobs already stored are untouched, and a
    job built with the default status is stored as [PENDING] and is part
    of the prioritized queue from then on. *)
Theorem add_job_appends (jobs : jobs_t) (job : GPUJob) :
  let '(jobs', result) := add_job jobs job in
  result = Returned (job_id job)
  ∧ jobs' !! length jobs = Some job
  ∧ length jobs' = S (length jobs)
  ∧ (∀ i : nat, (i < length jobs)%nat → jobs' !! i = jobs !! i)
  ∧ (status job = PENDING → job ∈ get_prioritized_queue jobs')
  ∧ ∀ id name duration power prio threshold now,
      status (new_job id name duration power prio threshold now) = PENDING.
Proof.
  unfold add_job. split_and!; try done.
  - by rewrite lookup_app_r, Nat.sub_diag.
  - rewrite length_app. simpl. lia.
  - intros i Hi. by rewrite lookup_app_l.
  - intros Hst. unfold get_prioritized_queue, get_jobs_by_status.
    rewrite sorted_reverse_perm. apply list_elem_of_filter.
    split; [done|]. apply elem_of_app. right. by left.
Qed.

End AddJob.

(** ** The emissions ledger *)

Section Ledger.
Import EmissionsTracker.

(** C5, as the spec states it, fails on both errors: a second
    [start_tracking] returns normally, and so does [stop_tracking] on a
    ledger that never started. *)
Lemma tracking_errors_counterexample :
  ¬ (∀ self job_name online now,
       tracker self ≠ None →
       (start_tracking self job_name online now).2
       = Raised TrackingAlreadyActive)
  ∧ ¬ (∀ self emissions now,
         tracker self = None →
         (stop_tracking self emissions now).2 = Raised NoActiveTracking).
Proof.
  split; intros H.
  - specialize (H (start_tracking (init "IN") "train" true 0).1
                  "render"%string true 10).
    assert (tracker (start_tracking (init "IN") "train" true 0).1 ≠ None)
      as Hopen by done.
    specialize (H Hopen). discriminate H.
  - specialize (H (init "IN") (1 # 2)%Q 10 eq_refl). discriminate H.
Qed.

(** C5, amended.  Neither call fails.  [start_tracking], with a bracket
    open or not, returns normally and puts a fresh bracket for the new
    label in the place of whatever was there (the ledger holds one
    tracker at most), leaving the log as it is; [stop_tracking] on a
    ledger on which tracking never started returns the empty dict and
    changes nothing. *)
Theorem tracking_never_fails self job_name online now emissions stopped :
  let '(self', result) := start_tracking self job_name online now in
  result = Returned ()
  ∧ tracker self'
    = Some (if online then EmissionsTracker ("greengl_" +:+ job_name)
            else OfflineEmissionsTracker (country_code self))
  ∧ current_job self' = Some job_name
  ∧ start_time self' = Some now
  ∧ emissions_log self' = emissions_log self
  ∧ (tracker self = None →
     stop_tracking self emissions stopped = (self, Returned None)).
Proof.
  unfold start_tracking, stop_tracking. split_and!; try done.
  by intros ->.
Qed.

(** C9 fails on the code: on an empty ledger the summary has four keys,
    all zero, and neither [max_single_job_kg] nor [min_single_job_kg];
    with one record or more it has all six. *)
Theorem get_emissions_summary_empty_keys :
  let summary := get_emissions_summary (init "IN") in
  summary.*1 = ["total_jobs"; "total_emissions_kg";
                "avg_emissions_per_job_kg"; "total_duration_hours"]%string
  ∧ Forall (λ kv, kv.2 = 0%Q) summary
  ∧ getitem summary "max_single_job_kg" = Raised (KeyError "max_single_job_kg")
  ∧ getitem summary "min_single_job_kg" = Raised (KeyError "min_single_job_kg")
  ∧ ∀ country tr r rs job started,
      (get_emissions_summary (mkTracker country tr (r :: rs) job started)).*1
      = ["total_jobs"; "total_emissions_kg"; "avg_emissions_per_job_kg";
         "total_duration_hours"; "max_single_job_kg";
         "min_single_job_kg"]%string.
Proof.
  split_and!; try done.
  repeat constructor.
Qed.

End Ledger.

Section LedgerWitnesses.
Import JobQueue EmissionsTracker Examples.

Lemma add_job_appends_witness :
  render ∈ get_prioritized_queue (add_job [train] render).1
  ∧ (add_job [train] render).1 !! 0%nat = Some train.
Proof.
  pose proof (add_job_appends [train] render) as H.
  destruct (add_job [train] render) as [jobs' result].
  destruct H as (_ & _ & _ & Hold & Hqueue & _).
  split; [apply Hqueue; reflexivity|].
  apply (Hold 0%nat). simpl. lia.
Defined.

Lemma tracking_never_fails_witness :
  stop_tracking (init "IN") (1 # 2) 10 = (init "IN", Returned None).
Proof.
  pose proof (tracking_never_fails (init "IN") "train" true 0 (1 # 2)%Q 10)
    as H.
  destruct (start_tracking (init "IN") "train" true 0) as [self' result].
  destruct H as (_ & _ & _ & _ & _ & Hstop).
  apply Hstop. reflexivity.
Defined.

End LedgerWitnesses.

(** ** The carbon signal client *)

Lemma Qltb_lt (x y : Q) : Qltb x y = true ↔ (x < y)%Q.
Proof.
  unfold Qltb. rewrite negb_true_iff, <- not_true_iff_false, Qle_bool_iff.
  split; [apply Qnot_le_lt|apply Qlt_not_le].
Qed.

Lemma Qltb_ge (x y : Q) : Qltb x y = false ↔ (y <= x)%Q.
Proof.
  unfold Qltb. by rewrite negb_false_iff, Qle_bool_iff.
Qed.

Section SignalClient.
Import CarbonApi Signal Examples.

Lemma randint_bounds (a b raw : Z) : a <= b → a <= randint a b raw <= b.
Proof.
  intros Hab. unfold randint.
  pose proof (Z.mod_pos_bound raw (b - a + 1)). lia.
Qed.

Lemma _get_mock_data_fields region raw now :
  let g := _get_mock_data region raw now in
  is_mock g = true
  ∧ CarbonApi.region g = region
  ∧ carbonIntensity g
    = PFin (inject_Z (baseline region + randint (-100) 100 raw)).
Proof.
  unfold _get_mock_data, baseline.
  destruct (_ <? 200); [done|]. by destruct (_ <? 400).
Qed.

Lemma _get_mock_data_band region raw now :
  in_jitter_band region (carbonIntensity (_get_mock_data region raw now)).
Proof.
  destruct (_get_mock_data_fields region raw now) as (_ & _ & ->).
  eexists. split; [done|].
  pose proof (randint_bounds (-100) 100 raw). lia.
Qed.

Lemma detected_failure_mock region resp raw now :
  detected_failure resp = true →
  get_grid_carbon_intensity region resp raw now
  = _get_mock_data region raw now.
Proof.
  unfold detected_failure, get_grid_carbon_intensity, fetch.
  destruct resp as [|code [json|]]; [done| |by destruct (code =? 200)].
  destruct (code =? 200); [|done].
  destruct json as [|b|x|s|l|d]; try done.
  destruct (dict_get d "carbonIntensity") as [[|b|x|s|l|d']|]; done.
Qed.

(** C6, as the spec states it, fails: a 200 response whose JSON object
    has no [carbonIntensity] is a malformed payload, and the client
    answers with intensity 500 that is not tagged as mock data and, for
    region NO, is far from the band around 50. *)
Lemma fallback_missing_field_counterexample :
  ¬ (∀ region resp raw now,
       signal_failure resp →
       let g := get_grid_carbon_intensity region resp raw now in
       is_mock g = true ∧ in_jitter_band region (carbonIntensity g)).
Proof.
  intros H.
  destruct (H "NO"%string (Response 200 (Some (VDict []))) 0 0) as [Hmock _].
  - right. reflexivity.
  - vm_compute in Hmock. discriminate Hmock.
Qed.

(** C6, amended.  [get_grid_carbon_intensity] returns a grid status for
    every region and every outcome of the request, and raises nothing.
    On every failure that the code detects (no response, a status other
    than 200, a body that is no JSON object, a [carbonIntensity] that is
    [null], a string, an array or an object) the result is the mock data
    of the region: tagged [is_mock], with an integer intensity within
    100 of the region's baseline.  Otherwise the result is not tagged;
    this includes the 200 response without a [carbonIntensity], for
    which the intensity is 500. *)
Theorem get_grid_carbon_intensity_fallback region resp raw now :
  let g := get_grid_carbon_intensity region resp raw now in
  (detected_failure resp = true →
   is_mock g = true
   ∧ CarbonApi.region g = region
   ∧ in_jitter_band region (carbonIntensity g))
  ∧ (detected_failure resp = false → is_mock g = false)
  ∧ (∀ d, resp = Response 200 (Some (VDict d)) →
          dict_get d "carbonIntensity" = None →
          is_mock g = false ∧ carbonIntensity g = PFin 500).
Proof.
  split_and!.
  - intros Hfail. rewrite (detected_failure_mock _ _ _ _ Hfail).
    destruct (_get_mock_data_fields region raw now) as (Hm & Hr & _).
    split_and!; [done|done|apply _get_mock_data_band].
  - unfold detected_failure, get_grid_carbon_intensity, fetch.
    destruct resp as [|code [json|]]; [done| |by destruct (code =? 200)].
    destruct (code =? 200); [|done].
    destruct json as [|b|x|s|l|d]; try done.
    destruct (dict_get d "carbonIntensity") as [[|b|x|s|l|d']|];
      try done; intros _; unfold as_number; cbn [from_option id];
      (destruct (num_lt _ 200); [done|]); by destruct (num_lt _ 400).
  - intros d -> Hget. unfold get_grid_carbon_intensity, fetch. simpl.
    by rewrite Hget.
Qed.

Lemma get_grid_carbon_intensity_fallback_witness :
  let g := get_grid_carbon_intensity "NO" Failed 7 0 in
  is_mock g = true
  ∧ (∃ v : Z, carbonIntensity g = PFin (inject_Z v) ∧ -50 <= v <= 150)
  ∧ is_mock (get_grid_carbon_intensity "NO" (ok 42) 7 0) = false.
Proof.
  destruct (get_grid_carbon_intensity_fallback "NO" Failed 7 0)
    as (Hfail & _ & _).
  destruct (Hfail eq_refl) as (Hm & _ & (v & Hv & Hband)).
  destruct (get_grid_carbon_intensity_fallback "NO" (ok 42) 7 0)
    as (_ & Hok & _).
  split_and!; [exact Hm| |exact (Hok eq_refl)].
  exists v. split; [exact Hv|exact Hband].
Defined.

End SignalClient.

Section Greenness.
Import CarbonApi Signal Examples.

(** C7, as the spec states it, fails at the upper end of the middle
    band: a fetched intensity of exactly 400 is classified [LOW]. *)
Lemma greenness_400_counterexample :
  ¬ (∀ region d (q : Q) raw now,
       dict_get d "carbonIntensity" = Some (VNum (PFin q)) →
       (200 <= q)%Q ∧ (q <= 400)%Q →
       greenness
         (get_grid_carbon_intensity region (Response 200 (Some (VDict d)))
            raw now)
       = MEDIUM).
Proof.
  intros H.
  specialize (H "US"%string
                [("carbonIntensity"%string, VNum (PFin 400))] 400%Q 0 0
                eq_refl).
  assert ((200 <= 400)%Q ∧ (400 <= 400)%Q) as Hband
    by (split; discriminate).
  specialize (H Hband). vm_compute in H. discriminate H.
Qed.

(** C7, amended.  For a fetched intensity [q] the classification is
    [HIGH] for [q < 200], [MEDIUM] for [200 <= q < 400] and [LOW] for
    [q >= 400]; the value returned is [q] itself and is not tagged as
    mock data.  The mock data is classified by the same two bounds. *)
Theorem greenness_bands region d (q : Q) raw now :
  dict_get d "carbonIntensity" = Some (VNum (PFin q)) →
  let g :=
    get_grid_carbon_intensity region (Response 200 (Some (VDict d)))
      raw now in
  let mock := _get_mock_data region raw now in
  let v := baseline region + randint (-100) 100 raw in
  carbonIntensity g = PFin q
  ∧ is_mock g = false
  ∧ ((q < 200)%Q → greenness g = HIGH)
  ∧ ((200 <= q)%Q ∧ (q < 400)%Q → greenness g = MEDIUM)
  ∧ ((400 <= q)%Q → greenness g = LOW)
  ∧ (v < 200 → greenness mock = HIGH)
  ∧ (200 <= v < 400 → greenness mock = MEDIUM)
  ∧ (400 <= v → greenness mock = LOW).
Proof.
  intros Hget g mock v.
  assert (g = let '(greenness, recommendation) :=
                if Qltb q 200
                then (HIGH, "✅ Schedule jobs NOW - Clean grid"%string)
                else if Qltb q 400
                then (MEDIUM, "⏳ Wait for better conditions"%string)
                else (LOW, "❌ Defer jobs - Dirty grid"%string) in
              mkGridStatus (PFin q) now greenness recommendation region
                "gCO2/kWh" false) as ->.
  { unfold g, get_grid_carbon_intensity, fetch. simpl. rewrite Hget. simpl.
    destruct (Qltb q _); [done|]. by destruct (Qltb q _). }
  unfold mock, _get_mock_data. fold (baseline region). fold v.
  destruct (Qltb q 200) eqn:E1; [|destruct (Qltb q 400) eqn:E2];
    try apply Qltb_lt in E1; try apply Qltb_ge in E1;
    try apply Qltb_lt in E2; try apply Qltb_ge in E2;
    (destruct (Z.ltb_spec v 200); [|destruct (Z.ltb_spec v 400)]);
    simpl; split_and!; try done; try lia; intros;
    exfalso; try destruct_and?;
    first [ by eapply (Qlt_irrefl q), Qlt_le_trans
          | by eapply (Qlt_irrefl 400%Q), Qle_lt_trans
          | by eapply (Qlt_irrefl 200%Q), Qle_lt_trans
          | eapply (Qlt_irrefl q);
            eapply Qlt_le_trans; [eassumption|];
            eapply Qle_trans; [|eassumption]; discriminate ].
Qed.

Lemma greenness_bands_witness :
  greenness (get_grid_carbon_intensity "US" (ok 400) 0 0) = LOW
  ∧ greenness (get_grid_carbon_intensity "US" (ok 399) 0 0) = MEDIUM
  ∧ greenness (get_grid_carbon_intensity "US" (ok 199) 0 0) = HIGH.
Proof.
  split_and!.
  - destruct (greenness_bands "US"
                [("carbonIntensity"%string, VNum (PFin 400))] 400%Q 0 0
                eq_refl)
      as (_ & _ & _ & _ & H & _).
    apply H. discriminate.
  - destruct (greenness_bands "US"
                [("carbonIntensity"%string, VNum (PFin 399))] 399%Q 0 0
                eq_refl)
      as (_ & _ & _ & H & _).
    apply H. split; [discriminate|reflexivity].
  - destruct (greenness_bands "US"
                [("carbonIntensity"%string, VNum (PFin 199))] 199%Q 0 0
                eq_refl)
      as (_ & _ & H & _).
    apply H. reflexivity.
Defined.

End Greenness.

(** * More of the code *)

(** ** The job queue: finding and updating by id *)

Section UpdateJobStatus.
Import JobQueue Policy Examples.

(** [update_job_status] in terms of the first job with the id. *)
Lemma update_job_status_find (jobs : jobs_t) id s :
  update_job_status jobs id s
  = match list_find (λ j, job_id j = id) jobs with
    | Some (k, _) => (alter (set_status s) k jobs, true)
    | None => (jobs, false)
    end.
Proof.
  induction jobs as [|j jobs IH]; [done|].
  cbn. destruct (String.eqb_spec (job_id j) id) as [Heq|Hne].
  - by rewrite decide_True.
  - rewrite decide_False by done. rewrite IH.
    by destruct (list_find _ jobs) as [[k j']|].
Qed.

Lemma alter_static (f : GPUJob → GPUJob) (i : nat) (jobs : jobs_t) :
  (∀ job, static (f job) = static job) →
  static <$> alter f i jobs = static <$> jobs.
Proof.
  intros Hf. rewrite (list_fmap_alter static f id)
    by (apply Forall_forall; intros; apply Hf).
  by apply list_alter_id.
Qed.

Lemma static_job_ids (jobs jobs' : jobs_t) :
  static <$> jobs' = static <$> jobs → job_id <$> jobs' = job_id <$> jobs.
Proof.
  intros H.
  assert (∀ l : jobs_t, job_id <$> l = (λ t, t.1.1.1.1.1.1.1) <$> (static <$> l))
    as Hl by (intros l; rewrite <- list_fmap_compose; by apply list_fmap_ext).
  by rewrite !Hl, H.
Qed.

(** X1. [update_job_status] returns [True] exactly when some job of the
    store has the id, and when it returns [False] the store is left as it
    was. *)
Theorem update_job_status_found (jobs : jobs_t) id s :
  ((update_job_status jobs id s).2 = true
   ↔ ∃ job, job ∈ jobs ∧ job_id job = id)
  ∧ ((update_job_status jobs id s).2 = false
     → (update_job_status jobs id s).1 = jobs).
Proof.
  rewrite update_job_status_find.
  destruct (list_find _ jobs) as [[k job]|] eqn:E; simpl.
  - split; [|done]. split; [|done]. intros _.
    apply list_find_Some in E as (Hk & Hid & _).
    exists job. split; [by eapply list_elem_of_lookup_2|done].
  - split; [|done]. split; [done|]. intros (job & Hin & Hid).
    apply list_find_None in E. rewrite Forall_forall in E.
    by destruct (E job Hin).
Qed.

(** X2. [update_job_status] writes one field of one job: the status of the
    first job with the id.  The number of jobs, every other field of every
    job, and every job at another position, later ones with the same id
    included, are as before. *)
Theorem update_job_status_only_first (jobs : jobs_t) id s :
  let jobs' := (update_job_status jobs id s).1 in
  length jobs' = length jobs
  ∧ static <$> jobs' = static <$> jobs
  ∧ scheduled_for <$> jobs' = scheduled_for <$> jobs
  ∧ ∀ (i : nat) job,
      jobs !! i = Some job → job_id job = id →
      (∀ (k : nat) job', (k < i)%nat → jobs !! k = Some job' → job_id job' ≠ id) →
      jobs' !! i = Some (set_status s job)
      ∧ ∀ k : nat, k ≠ i → jobs' !! k = jobs !! k.
Proof.
  intros jobs'. unfold jobs'. rewrite update_job_status_find.
  destruct (list_find _ jobs) as [[k job0]|] eqn:E; simpl.
  - split_and!.
    + apply length_alter.
    + by apply alter_static.
    + rewrite (list_fmap_alter scheduled_for (set_status s) (λ t, t))
        by (by apply Forall_forall).
      by apply list_alter_id.
    + intros i job Hi Hid Hfirst.
      apply list_find_Some in E as (Hk & Hidk & Hfirstk).
      assert (k = i) as ->.
      { destruct (Nat.lt_trichotomy k i) as [Hlt|[->|Hgt]]; [|done|].
        - by destruct (Hfirst k job0 Hlt Hk).
        - by destruct (Hfirstk i job Hi Hgt). }
      split; [by rewrite list_lookup_alter_eq, Hi|].
      intros k' Hne. by rewrite list_lookup_alter_ne.
  - split_and!; try done.
    intros i job Hi Hid _. apply list_find_None in E.
    rewrite Forall_forall in E.
    destruct (E job); [by eapply list_elem_of_lookup_2|done].
Qed.

Lemma update_job_status_only_first_witness :
  (update_job_status [train; render; train] "3f9a1c07" RUNNING).1
  !! 0%nat = Some (set_status RUNNING train)
  ∧ (update_job_status [train; render; train] "3f9a1c07" RUNNING).1
    !! 2%nat = Some train.
Proof.
  destruct (update_job_status_only_first [train; render; train]
              "3f9a1c07" RUNNING) as (_ & _ & _ & H).
  destruct (H 0%nat train eq_refl eq_refl) as [H0 Hrest].
  - intros k job' Hk. lia.
  - split; [exact H0|]. rewrite (Hrest 2%nat) by discriminate. reflexivity.
Defined.

(** X3. [add_job] does not look at the ids already stored: after a job is
    added under an id that is taken, [update_job_status] by that id still
    reaches the older job and never the new one; under a fresh id it
    reaches the new job. *)
Theorem add_job_then_update (jobs : jobs_t) (job : GPUJob) s :
  let jobs' := (add_job jobs job).1 in
  ((∃ old, old ∈ jobs ∧ job_id old = job_id job) →
   update_job_status jobs' (job_id job) s
   = ((update_job_status jobs (job_id job) s).1 ++ [job], true))
  ∧ ((∀ old, old ∈ jobs → job_id old ≠ job_id job) →
     update_job_status jobs' (job_id job) s
     = (jobs ++ [set_status s job], true)).
Proof.
  unfold add_job. cbn [fst].
  induction jobs as [|j jobs IH]; simpl.
  - split.
    + intros (old & Hin & _). by apply elem_of_nil in Hin.
    + intros _. by rewrite String.eqb_refl.
  - destruct IH as [IHdup IHfresh].
    destruct (String.eqb_spec (job_id j) (job_id job)) as [Heq|Hne]; split.
    + done.
    + intros Hfresh. destruct (Hfresh j); [by left|done].
    + intros (old & Hin & Hid). apply elem_of_cons in Hin as [->|Hin]; [done|].
      rewrite IHdup by eauto. by destruct (update_job_status jobs _ s).
    + intros Hfresh. rewrite IHfresh; [done|].
      intros old Hin. apply Hfresh. by right.
Qed.

Lemma add_job_then_update_witness :
  update_job_status (add_job [train] (set_status SCHEDULED train)).1
    "3f9a1c07" RUNNING
  = ([set_status RUNNING train; set_status SCHEDULED train], true)
  ∧ update_job_status (add_job [train] render).1 "b81e44d2" RUNNING
    = ([train; set_status RUNNING render], true).
Proof.
  split.
  - apply (proj1 (add_job_then_update [train] (set_status SCHEDULED train)
                    RUNNING)).
    exists train. split; [by left|reflexivity].
  - apply (proj2 (add_job_then_update [train] render RUNNING)).
    intros old Hin. apply elem_of_cons in Hin as [->|Hin]; [done|].
    by apply elem_of_nil in Hin.
Defined.

End UpdateJobStatus.

(** ** The job queue: status lists and the head of the queue *)

Section StatusLists.
Import JobQueue Examples.

(** X4. The five status lists of [get_jobs_by_status] split the store:
    each is a sublist of [self.jobs] in insertion order, holding exactly
    the jobs of that status, and their lengths add up to the number of
    jobs. *)
Theorem get_jobs_by_status_partition (jobs : jobs_t) :
  (length (get_jobs_by_status jobs PENDING)
   + length (get_jobs_by_status jobs SCHEDULED)
   + length (get_jobs_by_status jobs RUNNING)
   + length (get_jobs_by_status jobs COMPLETED)
   + length (get_jobs_by_status jobs DEFERRED) = length jobs)%nat
  ∧ ∀ s, get_jobs_by_status jobs s `sublist_of` jobs
         ∧ ∀ job, job ∈ get_jobs_by_status jobs s
                  ↔ job ∈ jobs ∧ status job = s.
Proof.
  unfold get_jobs_by_status. split.
  - induction jobs as [|j jobs IH]; [done|].
    rewrite !filter_cons.
    destruct (status j); repeat case_decide; try done; simpl; lia.
  - intros s. split; [apply sublist_filter|].
    intros job. rewrite list_elem_of_filter. tauto.
Qed.

(** X5. The first job of the prioritized queue is a pending job of the
    highest priority among the pending jobs, and the queue is empty
    exactly when no job is pending. *)
Theorem get_prioritized_queue_head (jobs : jobs_t) :
  (∀ first rest,
     get_prioritized_queue jobs = first :: rest →
     first ∈ jobs ∧ status first = PENDING
     ∧ ∀ job, job ∈ jobs → status job = PENDING →
              priority job <= priority first)
  ∧ (get_prioritized_queue jobs = []
     ↔ ∀ job, job ∈ jobs → status job ≠ PENDING).
Proof.
  unfold get_prioritized_queue, get_jobs_by_status.
  pose proof (sorted_reverse_perm priority
                (filter (λ j, status j = PENDING) jobs)) as Hperm.
  pose proof (sorted_reverse_descending priority
                (filter (λ j, status j = PENDING) jobs)) as Hsorted.
  split.
  - intros first rest Heq. rewrite Heq in Hperm, Hsorted.
    assert (∀ job, job ∈ first :: rest ↔ status job = PENDING ∧ job ∈ jobs)
      as Hin by (intros job; by rewrite Hperm, list_elem_of_filter).
    destruct (proj1 (Hin first)) as [Hst Hjobs]; [by left|].
    split_and!; [done|done|].
    intros job Hjob Hpending.
    assert (job ∈ first :: rest) as Hq by (apply Hin; done).
    apply elem_of_cons in Hq as [->|Hq]; [lia|].
    apply StronglySorted_inv in Hsorted as [_ Hall].
    rewrite Forall_forall in Hall. by apply Hall.
  - split.
    + intros Heq job Hjob Hpending. rewrite Heq in Hperm.
      assert (job ∈ @nil GPUJob) as Hnil
        by (rewrite Hperm; apply list_elem_of_filter; done).
      by apply elem_of_nil in Hnil.
    + intros Hnone. apply elem_of_nil_inv. intros job Hin.
      rewrite Hperm in Hin. apply list_elem_of_filter in Hin as [Hst Hin].
      by destruct (Hnone job Hin).
Qed.

Lemma get_prioritized_queue_head_witness :
  priority train <= priority render
  ∧ get_prioritized_queue [completed_train] = [].
Proof.
  split.
  - destruct (proj1 (get_prioritized_queue_head [train; render])
                render [train] eq_refl) as (_ & _ & Hmax).
    apply Hmax; [by left|reflexivity].
  - apply (proj2 (get_prioritized_queue_head [completed_train])).
    intros job Hin. apply elem_of_cons in Hin as [->|Hin]; [done|].
    by apply elem_of_nil in Hin.
Defined.

End StatusLists.

(** ** The evaluation cycle, whatever the ids *)

Section EvaluateLoop.
Import JobQueue CarbonApi CarbonScheduler Policy Examples.

Lemma update_job_status_static (jobs : jobs_t) id s :
  static <$> (update_job_status jobs id s).1 = static <$> jobs.
Proof.
  rewrite update_job_status_find.
  destruct (list_find _ jobs) as [[k job]|]; [|done].
  by apply alter_static.
Qed.

Lemma static_length (jobs jobs' : jobs_t) :
  static <$> jobs' = static <$> jobs → length jobs' = length jobs.
Proof. intros H. by rewrite <- (length_fmap static jobs'), H, length_fmap. Qed.

Lemma static_is_Some (jobs jobs' : jobs_t) (i : nat) :
  static <$> jobs' = static <$> jobs → is_Some (jobs !! i) → is_Some (jobs' !! i).
Proof.
  intros H Hi. apply lookup_lt_is_Some. rewrite (static_length _ _ H).
  by apply lookup_lt_is_Some.
Qed.

Lemma below_static ci (jobs jobs' : jobs_t) (i : nat) :
  static <$> jobs' = static <$> jobs → below ci jobs' i = below ci jobs i.
Proof.
  intros H. unfold below.
  assert ((static <$> jobs') !! i = (static <$> jobs) !! i) as Hi by (by rewrite H).
  rewrite !list_lookup_fmap in Hi.
  destruct (jobs' !! i) as [j'|], (jobs !! i) as [j|]; simpl in Hi; try done.
  apply (f_equal (λ o, (λ t, t.1.1.2) <$> o)) in Hi. simpl in Hi.
  by injection Hi as ->.
Qed.

(** One turn of the loop: the fields it does not write, and the two
    lists. *)
Lemma schedule_job_lists ci now (jobs : jobs_t) sc df (i : nat) :
  is_Some (jobs !! i) →
  let r := schedule_job ci now (jobs, sc, df) i in
  static <$> r.1.1 = static <$> jobs
  ∧ r.1.2 = sc ++ (if below ci jobs i then [i] else [])
  ∧ r.2 = df ++ (if below ci jobs i then [] else [i]).
Proof.
  intros [job Hi]. unfold schedule_job, below. rewrite Hi.
  destruct (num_lt ci _); simpl;
    (split_and!; [|by rewrite ?app_nil_r..]);
    (rewrite alter_static by done); apply update_job_status_static.
Qed.

Lemma schedule_loop_lists ci now (refs : list nat)
    (acc : jobs_t * list nat * list nat) :
  (∀ i, i ∈ refs → is_Some (acc.1.1 !! i)) →
  let r := foldl (schedule_job ci now) acc refs in
  static <$> r.1.1 = static <$> acc.1.1
  ∧ r.1.2 = acc.1.2 ++ filter (λ i, below ci acc.1.1 i = true) refs
  ∧ r.2 = acc.2 ++ filter (λ i, ¬ below ci acc.1.1 i = true) refs.
Proof.
  revert acc. induction refs as [|i refs IH]; intros [[jobs sc] df] Hrefs;
    cbn [fst snd] in Hrefs |- *.
  - cbn. by rewrite !app_nil_r.
  - cbn [foldl].
    destruct (schedule_job_lists ci now jobs sc df i) as (Hst & Hsc & Hdf);
      [apply Hrefs; by left|].
    destruct (schedule_job ci now (jobs, sc, df) i) as [[jobs1 sc1] df1].
    cbn [fst snd] in Hst, Hsc, Hdf.
    destruct (IH (jobs1, sc1, df1)) as (Hst' & Hsc' & Hdf').
    { intros k Hk. cbn. eapply static_is_Some; [done|]. apply Hrefs. by right. }
    cbn [fst snd] in Hst', Hsc', Hdf'.
    split_and!.
    + by rewrite Hst'.
    + rewrite Hsc', Hsc, filter_cons.
      rewrite (list_filter_iff _ (λ k, below ci jobs k = true))
        by (intros k; by rewrite (below_static ci jobs jobs1)).
      destruct (below ci jobs i) eqn:E.
      * rewrite decide_True by done. by rewrite <- app_assoc.
      * rewrite decide_False by done. by rewrite app_nil_r.
    + rewrite Hdf', Hdf, filter_cons.
      rewrite (list_filter_iff _ (λ k, ¬ below ci jobs k = true))
        by (intros k; by rewrite (below_static ci jobs jobs1)).
      destruct (below ci jobs i) eqn:E.
      * rewrite decide_False by (intros Hn; by apply Hn). by rewrite app_nil_r.
      * rewrite decide_True by done. by rewrite <- app_assoc.
Qed.

Lemma length_omap_lookup (jobs : jobs_t) (l : list nat) :
  (∀ i, i ∈ l → is_Some (jobs !! i)) →
  length (omap (λ i, jobs !! i) l) = length l.
Proof.
  induction l as [|i l IH]; intros Hl; [done|].
  cbn. destruct (Hl i) as [job Hi]; [by left|]. rewrite Hi. cbn.
  f_equal. apply IH. intros k Hk. apply Hl. by right.
Qed.

Lemma prioritized_refs_is_Some (jobs : jobs_t) (i : nat) :
  i ∈ prioritized_refs jobs → is_Some (jobs !! i).
Proof. intros (job & Hi & _)%prioritized_refs_pending. by exists job. Qed.

Lemma length_filter_complement {A} (P : A → Prop) `{!∀ x, Decision (P x)}
    (l : list A) :
  (length (filter P l) + length (filter (λ x, ¬ P x) l) = length l)%nat.
Proof. by rewrite <- length_app, filter_app_complement. Qed.

(** X6. The counts of a cycle: every job of the prioritized queue is
    counted once, as scheduled or as deferred; [total_scheduled_jobs]
    repeats [scheduled_count]; and the two job lists of the result have
    those lengths. *)
Theorem schedule_pending_jobs_counts self region resp raw now :
  let result := (schedule_pending_jobs self region resp raw now).2 in
  (scheduled_count result + deferred_count result
   = length (get_prioritized_queue (job_queue self)))%nat
  ∧ length (get_prioritized_queue (job_queue self))
    = length (get_jobs_by_status (job_queue self) PENDING)
  ∧ total_scheduled_jobs result = scheduled_count result
  ∧ length (scheduled_jobs result) = scheduled_count result
  ∧ length (deferred_jobs result) = deferred_count result.
Proof.
  unfold schedule_pending_jobs.
  set (ci := carbonIntensity (get_grid_carbon_intensity region resp raw now)).
  destruct (schedule_loop_lists ci now (prioritized_refs (job_queue self))
              (job_queue self, [], []))
    as (Hst & Hsc & Hdf); [apply prioritized_refs_is_Some|].
  destruct (foldl _ _ _) as [[jobs sc] df]. cbn [fst snd] in *.
  assert (∀ i, i ∈ prioritized_refs (job_queue self) → is_Some (jobs !! i))
    as Hsome.
  { intros i Hi. eapply static_is_Some; [done|].
    by apply prioritized_refs_is_Some. }
  split_and!.
  - rewrite Hsc, Hdf, !app_nil_l.
    pose proof (length_filter_complement
                  (λ i, below ci (job_queue self) i = true)
                  (prioritized_refs (job_queue self))) as Hlen.
    cbn beta in Hlen. etransitivity; [exact Hlen|].
    rewrite <- prioritized_refs_queue.
    symmetry. apply length_omap_lookup, prioritized_refs_is_Some.
  - unfold get_prioritized_queue.
    by rewrite (sorted_reverse_perm priority).
  - done.
  - apply length_omap_lookup. intros i Hi. apply Hsome.
    rewrite Hsc in Hi. by apply list_elem_of_filter in Hi as [_ Hi].
  - apply length_omap_lookup. intros i Hi. apply Hsome.
    rewrite Hdf in Hi. by apply list_elem_of_filter in Hi as [_ Hi].
Qed.

(** X7. What a cycle leaves alone: it appends exactly its result to the
    schedule history, does not touch the emissions tracker, keeps the
    number of jobs and, of every job, the id, name, duration, power draw,
    priority, threshold, submission time and recorded emissions.  The
    result carries the intensity and greenness that were fetched. *)
Theorem schedule_pending_jobs_frame self region resp raw now :
  let '(self', result) := schedule_pending_jobs self region resp raw now in
  let grid := get_grid_carbon_intensity region resp raw now in
  schedule_history self' = schedule_history self ++ [result]
  ∧ emissions_tracker self' = emissions_tracker self
  ∧ length (job_queue self') = length (job_queue self)
  ∧ static <$> job_queue self' = static <$> job_queue self
  ∧ current_carbon_intensity result = carbonIntensity grid
  ∧ grid_greenness result = greenness grid
  ∧ CarbonScheduler.region result = region.
Proof.
  unfold schedule_pending_jobs.
  set (ci := carbonIntensity (get_grid_carbon_intensity region resp raw now)).
  destruct (schedule_loop_lists ci now (prioritized_refs (job_queue self))
              (job_queue self, [], []))
    as (Hst & _ & _); [apply prioritized_refs_is_Some|].
  destruct (foldl _ _ _) as [[jobs sc] df]. cbn [fst snd] in *.
  split_and!; try done. by apply static_length.
Qed.

End EvaluateLoop.

(** ** The evaluation cycle with unique ids *)

Section EvaluateUnique.
Import JobQueue CarbonApi CarbonScheduler Policy Signal Examples.

Lemma omap_filter_lookup (P : nat → Prop) (Q : GPUJob → Prop)
    `{!∀ i, Decision (P i), !∀ job, Decision (Q job)}
    (jobs : jobs_t) (l : list nat) :
  (∀ i job, jobs !! i = Some job → (P i ↔ Q job)) →
  (∀ i, i ∈ l → is_Some (jobs !! i)) →
  omap (λ i, jobs !! i) (filter P l) = filter Q (omap (λ i, jobs !! i) l).
Proof.
  intros HPQ. induction l as [|i l IH]; intros Hl; [done|].
  destruct (Hl i) as [job Hi]; [by left|].
  assert (omap (λ i, jobs !! i) (filter P l)
          = filter Q (omap (λ i, jobs !! i) l)) as IH'
    by (apply IH; intros k Hk; apply Hl; by right).
  rewrite filter_cons. cbn [omap list_omap]. rewrite Hi.
  rewrite filter_cons.
  destruct (decide (P i)) as [Hp|Hp], (decide (Q job)) as [Hq|Hq].
  - cbn [omap list_omap]. by rewrite Hi, IH'.
  - by destruct Hq; apply (HPQ i job).
  - by destruct Hp; apply (HPQ i job).
  - done.
Qed.

Lemma omap_lookup_decided ci now (jobs final : jobs_t) (refs l : list nat) :
  (∀ k, k ∈ refs → final !! k = decide_job ci now <$> jobs !! k) →
  (∀ k, k ∈ l → k ∈ refs) →
  omap (λ i, final !! i) l = decide_job ci now <$> omap (λ i, jobs !! i) l.
Proof.
  intros Hfinal. induction l as [|i l IH]; intros Hl; [done|].
  cbn [omap list_omap]. rewrite (Hfinal i) by (apply Hl; by left).
  destruct (jobs !! i) as [job|]; cbn;
    rewrite <- IH by (intros k Hk; apply Hl; by right); done.
Qed.

Lemma below_lookup ci (jobs : jobs_t) (i : nat) job :
  jobs !! i = Some job →
  below ci jobs i = num_lt ci (carbon_intensity_threshold job).
Proof. intros Hi. unfold below. by rewrite Hi. Qed.

(** The store after a cycle, job by job. *)
Lemma schedule_pending_jobs_decided self region resp raw now :
  NoDup (job_id <$> job_queue self) →
  let intensity :=
    carbonIntensity (get_grid_carbon_intensity region resp raw now) in
  job_queue (schedule_pending_jobs self region resp raw now).1
  = (λ job, if decide (status job = PENDING)
            then decide_job intensity now job else job) <$> job_queue self.
Proof.
  intros Hnd intensity. apply list_eq. intros k.
  rewrite schedule_pending_jobs_lookup by done. rewrite list_lookup_fmap.
  destruct (job_queue self !! k) as [job|] eqn:Hk; [|by case_decide].
  simpl. fold intensity.
  destruct (decide (status job = PENDING)) as [Hp|Hp].
  - rewrite decide_True; [done|]. apply prioritized_refs_pending. eauto.
  - rewrite decide_False; [done|].
    intros (job' & Hk' & Hst)%prioritized_refs_pending. congruence.
Qed.

(** X8. With unique ids, the store after a cycle is the store before with
    every pending job decided (status and [scheduled_for] set by the
    threshold test) and every other job, whatever its status, as it
    was. *)
Theorem schedule_pending_jobs_store self region resp raw now :
  NoDup (job_id <$> job_queue self) →
  let intensity :=
    carbonIntensity (get_grid_carbon_intensity region resp raw now) in
  let self' := (schedule_pending_jobs self region resp raw now).1 in
  job_queue self'
  = (λ job, if decide (status job = PENDING)
            then decide_job intensity now job else job) <$> job_queue self
  ∧ ∀ (i : nat) job,
      job_queue self !! i = Some job → status job ≠ PENDING →
      job_queue self' !! i = Some job.
Proof.
  intros Hnd intensity self'. unfold self'.
  rewrite schedule_pending_jobs_decided by done. split; [done|].
  intros i job Hi Hst. rewrite list_lookup_fmap, Hi. simpl.
  by rewrite decide_False.
Qed.

Lemma schedule_pending_jobs_store_witness :
  job_queue (schedule_pending_jobs
               (scheduler_of [train; archived; render])
               "X" (ok 150) 0 1000).1
  = [set_scheduled_for 1000 (set_status SCHEDULED train); archived;
     set_scheduled_for (1000 + six_hours) (set_status DEFERRED render)].
Proof.
  rewrite (proj1 (schedule_pending_jobs_store
                    (scheduler_of [train; archived; render])
                    "X" (ok 150) 0 1000
                    ltac:(apply (bool_decide_unpack _); vm_compute; exact I))).
  reflexivity.
Defined.

(** X9. With unique ids, the two job lists of a result are the prioritized
    queue split by the threshold test, in queue order: [scheduled_jobs]
    holds the jobs whose threshold is above the intensity, as [SCHEDULED]
    for now; [deferred_jobs] the others, as [DEFERRED] for six hours from
    now. *)
Theorem schedule_pending_jobs_lists self region resp raw now :
  NoDup (job_id <$> job_queue self) →
  let intensity :=
    carbonIntensity (get_grid_carbon_intensity region resp raw now) in
  let result := (schedule_pending_jobs self region resp raw now).2 in
  let queue := get_prioritized_queue (job_queue self) in
  scheduled_jobs result
  = (λ job, set_scheduled_for now (set_status SCHEDULED job))
    <$> filter (λ job, num_lt intensity (carbon_intensity_threshold job) = true)
          queue
  ∧ deferred_jobs result
    = (λ job, set_scheduled_for (now + six_hours) (set_status DEFERRED job))
      <$> filter (λ job, ¬ num_lt intensity (carbon_intensity_threshold job)
                           = true) queue.
Proof.
  intros Hnd intensity result queue. unfold result, schedule_pending_jobs.
  fold intensity.
  set (refs := prioritized_refs (job_queue self)).
  destruct (schedule_loop_lists intensity now refs (job_queue self, [], []))
    as (_ & Hsc & Hdf); [apply prioritized_refs_is_Some|].
  assert (∀ k, k ∈ refs →
            (foldl (schedule_job intensity now) (job_queue self, [], []) refs).1.1
            !! k = decide_job intensity now <$> job_queue self !! k) as Hfinal.
  { intros k Hk.
    rewrite schedule_loop_lookup;
      [by rewrite decide_True|done|apply prioritized_refs_is_Some]. }
  destruct (foldl _ _ _) as [[jobs sc] df]. cbn [fst snd] in *.
  rewrite app_nil_l in Hsc, Hdf. subst sc df.
  cbn [snd scheduled_jobs deferred_jobs]. split.
  - rewrite (omap_lookup_decided intensity now (job_queue self) jobs refs)
      by (done || by intros k [_ Hk]%list_elem_of_filter).
    rewrite (omap_filter_lookup _
               (λ job, num_lt intensity (carbon_intensity_threshold job) = true)).
    + unfold refs. rewrite prioritized_refs_queue. fold queue.
      apply list_fmap_ext. intros i job Hi.
      apply list_elem_of_lookup_2, list_elem_of_filter in Hi as [Hlt _].
      unfold decide_job. by rewrite Hlt.
    + intros i job Hi. by rewrite (below_lookup _ _ _ _ Hi).
    + apply prioritized_refs_is_Some.
  - rewrite (omap_lookup_decided intensity now (job_queue self) jobs refs)
      by (done || by intros k [_ Hk]%list_elem_of_filter).
    rewrite (omap_filter_lookup _
               (λ job, ¬ num_lt intensity (carbon_intensity_threshold job)
                         = true)).
    + unfold refs. rewrite prioritized_refs_queue. fold queue.
      apply list_fmap_ext. intros i job Hi.
      apply list_elem_of_lookup_2, list_elem_of_filter in Hi as [Hlt _].
      unfold decide_job. by destruct (num_lt intensity _).
    + intros i job Hi. by rewrite (below_lookup _ _ _ _ Hi).
    + apply prioritized_refs_is_Some.
Qed.

Lemma schedule_pending_jobs_lists_witness :
  let result :=
    (schedule_pending_jobs (scheduler_of [train; render]) "X" (ok 150)
       0 1000).2 in
  job_id <$> scheduled_jobs result = ["3f9a1c07"%string]
  ∧ job_id <$> deferred_jobs result = ["b81e44d2"%string].
Proof.
  intros result.
  destruct (schedule_pending_jobs_lists (scheduler_of [train; render])
              "X" (ok 150) 0 1000) as [Hs Hd].
  - apply (bool_decide_unpack _). vm_compute. exact I.
  - unfold result. rewrite Hs, Hd. split; reflexivity.
Defined.

(** X10. With unique ids, a cycle leaves no job pending: the prioritized
    queue is empty afterwards, and a second cycle, whatever the grid says
    then, changes no job and counts nothing. *)
Theorem schedule_pending_jobs_twice self region resp raw now :
  NoDup (job_id <$> job_queue self) →
  let self1 := (schedule_pending_jobs self region resp raw now).1 in
  get_prioritized_queue (job_queue self1) = []
  ∧ ∀ region' resp' raw' now',
      let '(self2, result2) :=
        schedule_pending_jobs self1 region' resp' raw' now' in
      job_queue self2 = job_queue self1
      ∧ scheduled_count result2 = 0%nat
      ∧ deferred_count result2 = 0%nat.
Proof.
  intros Hnd self1.
  assert (prioritized_refs (job_queue self1) = []) as Hrefs.
  { apply elem_of_nil_inv. intros k (job1 & Hk & Hst)%prioritized_refs_pending.
    unfold self1 in Hk. rewrite schedule_pending_jobs_decided in Hk by done.
    rewrite list_lookup_fmap in Hk.
    destruct (job_queue self !! k) as [job|]; [|done].
    simpl in Hk. injection Hk as <-.
    destruct (decide (status job = PENDING)); [|done].
    unfold decide_job in Hst. by destruct (num_lt _ _). }
  split.
  - by rewrite <- prioritized_refs_queue, Hrefs.
  - intros region' resp' raw' now'. unfold schedule_pending_jobs at 1.
    by rewrite Hrefs.
Qed.

Lemma schedule_pending_jobs_twice_witness :
  let self1 :=
    (schedule_pending_jobs (scheduler_of [train; render]) "X" (ok 150)
       0 1000).1 in
  job_queue (schedule_pending_jobs self1 "X" (ok 50) 0 2000).1
  = job_queue self1.
Proof.
  intros self1.
  destruct (schedule_pending_jobs_twice (scheduler_of [train; render])
              "X" (ok 150) 0 1000) as [_ H].
  - apply (bool_decide_unpack _). vm_compute. exact I.
  - fold self1 in H. specialize (H "X"%string (ok 50) 0 2000).
    destruct (schedule_pending_jobs self1 "X" (ok 50) 0 2000) as [self2 r2].
    exact (proj1 H).
Defined.

End EvaluateUnique.

(** ** The evaluation cycle: shared ids, a provider that is down, and the
    estimate *)

Section EvaluateMore.
Import JobQueue CarbonApi CarbonScheduler Policy Signal Examples.

(** One turn of the loop never writes the status of a job that an earlier
    job shares its id with. *)
Lemma schedule_job_shadowed ci now (jobs : jobs_t) sc df (r i k : nat) id :
  (k < i)%nat →
  (job_id <$> jobs) !! k = Some id →
  (job_id <$> jobs) !! i = Some id →
  is_Some (jobs !! r) →
  status <$> (schedule_job ci now (jobs, sc, df) r).1.1 !! i
  = status <$> jobs !! i.
Proof.
  intros Hlt Hk Hi [job Hr].
  assert (∀ s, status <$> (update_job_status jobs (job_id job) s).1 !! i
               = status <$> jobs !! i) as Hupd.
  { intros s. rewrite update_job_status_find.
    destruct (list_find _ jobs) as [[first job0]|] eqn:E; [|done]. simpl.
    apply list_find_Some in E as (Hfirst & Hid & Hbefore).
    rewrite list_lookup_alter_ne; [done|]. intros ->.
    rewrite list_lookup_fmap in Hk, Hi. rewrite Hfirst in Hi.
    destruct (jobs !! k) as [jk|] eqn:Ek; [|done].
    simpl in Hk, Hi. apply (Hbefore k jk); [done|done|congruence]. }
  assert (∀ t (l : jobs_t),
            status <$> alter (set_scheduled_for t) r l !! i
            = status <$> l !! i) as Halt.
  { intros t l. destruct (decide (r = i)) as [->|Hne].
    - rewrite list_lookup_alter_eq. by destruct (l !! i).
    - by rewrite list_lookup_alter_ne. }
  unfold schedule_job. rewrite Hr.
  destruct (num_lt ci _); cbn [fst]; by rewrite Halt, Hupd.
Qed.

Lemma schedule_loop_shadowed ci now (refs : list nat)
    (acc : jobs_t * list nat * list nat) (i k : nat) id :
  (k < i)%nat →
  (job_id <$> acc.1.1) !! k = Some id →
  (job_id <$> acc.1.1) !! i = Some id →
  (∀ r, r ∈ refs → is_Some (acc.1.1 !! r)) →
  status <$> (foldl (schedule_job ci now) acc refs).1.1 !! i
  = status <$> acc.1.1 !! i.
Proof.
  intros Hlt. revert acc.
  induction refs as [|r refs IH]; intros [[jobs sc] df] Hk Hi Hrefs;
    cbn [fst] in *; [done|].
  cbn [foldl].
  pose proof (schedule_job_shadowed ci now jobs sc df r i k id Hlt Hk Hi)
    as Hstep.
  destruct (schedule_job_lists ci now jobs sc df r) as (Hst & _ & _);
    [apply Hrefs; by left|].
  destruct (schedule_job ci now (jobs, sc, df) r) as [[jobs1 sc1] df1].
  cbn [fst] in *. apply static_job_ids in Hst as Hids.
  rewrite IH.
  - apply Hstep, Hrefs. by left.
  - cbn. by rewrite Hids.
  - cbn. by rewrite Hids.
  - intros r' Hr'. cbn. eapply static_is_Some; [done|]. apply Hrefs. by right.
Qed.

(** X11. When two jobs share an id, a cycle never writes the status of the
    later one: if it was pending it is counted among the scheduled or the
    deferred jobs and handled in the loop, and is pending still when the
    cycle ends. *)
Theorem schedule_pending_jobs_shared_id
    self region resp raw now (i k : nat) job earlier :
  (k < i)%nat →
  job_queue self !! k = Some earlier →
  job_queue self !! i = Some job →
  job_id earlier = job_id job →
  status <$> job_queue (schedule_pending_jobs self region resp raw now).1 !! i
  = Some (status job)
  ∧ (status job = PENDING → job ∈ get_prioritized_queue (job_queue self)).
Proof.
  intros Hlt Hk Hi Hid. split.
  - unfold schedule_pending_jobs.
    set (ci := carbonIntensity (get_grid_carbon_intensity region resp raw now)).
    pose proof (schedule_loop_shadowed ci now
                  (prioritized_refs (job_queue self)) (job_queue self, [], [])
                  i k (job_id job) Hlt) as H.
    cbn [fst] in H.
    rewrite !list_lookup_fmap, Hk, Hi in H. simpl in H.
    specialize (H (f_equal Some Hid) eq_refl
                  (prioritized_refs_is_Some (job_queue self))).
    by destruct (foldl _ _ _) as [[jobs sc] df].
  - intros Hst. unfold get_prioritized_queue, get_jobs_by_status.
    rewrite sorted_reverse_perm. apply list_elem_of_filter.
    split; [done|]. by eapply list_elem_of_lookup_2.
Qed.

Lemma schedule_pending_jobs_shared_id_witness :
  status <$> job_queue (schedule_pending_jobs
                          (scheduler_of [completed_train; train])
                          "X" (ok 150) 0 1000).1 !! 1%nat
  = Some PENDING.
Proof.
  apply (proj1 (schedule_pending_jobs_shared_id
                  (scheduler_of [completed_train; train]) "X" (ok 150) 0 1000
                  1%nat 0%nat train completed_train
                  (Nat.lt_0_succ 0) eq_refl eq_refl eq_refl)).
Defined.

Lemma num_lt_inject_Z (v n : Z) : num_lt (PFin (inject_Z v)) n = (v <? n).
Proof.
  unfold num_lt, Qltb, Qle_bool. simpl. rewrite !Z.mul_1_r.
  destruct (Z.leb_spec n v), (Z.ltb_spec v n); simpl; try done; lia.
Qed.

(** X12. When the carbon provider is down the cycle still decides, on the
    mock data of the region: with unique ids, a pending job whose
    threshold is at most the baseline minus 100 is deferred and one whose
    threshold is above the baseline plus 100 is scheduled, whatever the
    random draw. *)
Theorem schedule_pending_jobs_provider_down
    self region resp raw now (i : nat) job :
  detected_failure resp = true →
  NoDup (job_id <$> job_queue self) →
  job_queue self !! i = Some job →
  status job = PENDING →
  let self' := (schedule_pending_jobs self region resp raw now).1 in
  (carbon_intensity_threshold job <= baseline region - 100 →
   status <$> job_queue self' !! i = Some DEFERRED)
  ∧ (baseline region + 100 < carbon_intensity_threshold job →
     status <$> job_queue self' !! i = Some SCHEDULED).
Proof.
  intros Hdown Hnd Hi Hst self'. unfold self'.
  rewrite schedule_pending_jobs_decided by done.
  rewrite list_lookup_fmap, Hi. simpl. rewrite decide_True by done.
  rewrite (detected_failure_mock _ _ _ _ Hdown).
  destruct (_get_mock_data_fields region raw now) as (_ & _ & ->).
  unfold decide_job. rewrite num_lt_inject_Z.
  pose proof (randint_bounds (-100) 100 raw).
  split; intros Hthr.
  - destruct (Z.ltb_spec (baseline region + randint (-100) 100 raw)
                (carbon_intensity_threshold job)); [lia|done].
  - destruct (Z.ltb_spec (baseline region + randint (-100) 100 raw)
                (carbon_intensity_threshold job)); [done|lia].
Qed.

Lemma schedule_pending_jobs_provider_down_witness :
  status <$> job_queue (schedule_pending_jobs (scheduler_of [train; render])
                          "IN" Failed 57 1000).1 !! 0%nat
  = Some DEFERRED
  ∧ status <$> job_queue (schedule_pending_jobs (scheduler_of [train; render])
                            "NO" Failed 57 1000).1 !! 0%nat
    = Some SCHEDULED.
Proof.
  assert (NoDup (job_id <$> job_queue (scheduler_of [train; render]))) as Hnd
    by (apply (bool_decide_unpack _); vm_compute; exact I).
  split.
  - apply (proj1 (schedule_pending_jobs_provider_down
                    (scheduler_of [train; render]) "IN" Failed 57 1000
                    0%nat train eq_refl Hnd eq_refl eq_refl)).
    vm_compute. discriminate.
  - apply (proj2 (schedule_pending_jobs_provider_down
                    (scheduler_of [train; render]) "NO" Failed 57 1000
                    0%nat train eq_refl Hnd eq_refl eq_refl)).
    vm_compute. reflexivity.
Defined.

Lemma Qsum_nonneg (l : list Q) :
  Forall (λ x, (0 <= x)%Q) l → (0 <= EmissionsTracker.Qsum l)%Q.
Proof.
  induction 1 as [|x l Hx Hl IH]; simpl; [discriminate|].
  change 0%Q with (0 + 0)%Q. by apply Qplus_le_compat.
Qed.

Lemma calculate_emissions_for_job_nonneg (job : GPUJob) :
  0 <= power_draw_watts job → 0 <= duration_minutes job →
  (0 <= calculate_emissions_for_job job)%Q.
Proof.
  intros Hp Hd. unfold calculate_emissions_for_job. cbv zeta.
  repeat apply Qmult_le_0_compat; try discriminate.
  - by rewrite <- (Zle_Qle 0).
  - by rewrite <- (Zle_Qle 0).
Qed.

(** X13. The estimate of a cycle is the sum over the deferred jobs; it is
    zero when nothing was deferred and, when no job of the store has a
    negative power draw or duration, it is not negative. *)
Theorem schedule_pending_jobs_estimate self region resp raw now :
  let result := (schedule_pending_jobs self region resp raw now).2 in
  estimated_emissions_saved_kg result
  = EmissionsTracker.Qsum
      (calculate_emissions_for_job <$> deferred_jobs result)
  ∧ (deferred_count result = 0%nat → estimated_emissions_saved_kg result = 0%Q)
  ∧ ((∀ job, job ∈ job_queue self →
             0 <= power_draw_watts job ∧ 0 <= duration_minutes job) →
     (0 <= estimated_emissions_saved_kg result)%Q).
Proof.
  unfold schedule_pending_jobs.
  set (ci := carbonIntensity (get_grid_carbon_intensity region resp raw now)).
  destruct (schedule_loop_lists ci now (prioritized_refs (job_queue self))
              (job_queue self, [], []))
    as (Hst & _ & _); [apply prioritized_refs_is_Some|].
  destruct (foldl _ _ _) as [[jobs sc] df].
  cbn [fst snd estimated_emissions_saved_kg deferred_jobs deferred_count] in *.
  split_and!; [done| |].
  - intros Hnil. apply length_zero_iff_nil in Hnil. by rewrite Hnil.
  - intros Hpos. apply Qsum_nonneg, Forall_fmap, Forall_forall.
    intros job' Hin. apply list_elem_of_omap in Hin as (k & _ & Hk).
    assert ((static <$> jobs) !! k = (static <$> job_queue self) !! k) as Hs
      by (by rewrite Hst).
    rewrite !list_lookup_fmap, Hk in Hs.
    destruct (job_queue self !! k) as [job|] eqn:Ek; [|done].
    simpl in Hs. injection Hs as Hid Hname Hdur Hpow _ _ _ _.
    destruct (Hpos job) as [Hp Hd]; [by eapply list_elem_of_lookup_2|].
    apply calculate_emissions_for_job_nonneg; congruence.
Qed.

Lemma schedule_pending_jobs_estimate_witness :
  Qle 0 (estimated_emissions_saved_kg
           (schedule_pending_jobs (scheduler_of [train; render]) "X" (ok 150)
              0 1000).2).
Proof.
  apply (proj2 (proj2 (schedule_pending_jobs_estimate
                         (scheduler_of [train; render]) "X" (ok 150) 0 1000))).
  intros job Hin. cbn in Hin.
  apply elem_of_cons in Hin as [->|Hin]; [by split|].
  apply elem_of_cons in Hin as [->|Hin]; [by split|].
  by apply elem_of_nil in Hin.
Defined.

End EvaluateMore.

(** ** Running a job: every outcome *)

Section RunOutcomes.
Import JobQueue CarbonScheduler Policy Examples.

(** What a run does to the whole state, for a job that is found and whose
    duration is not negative. *)
Lemma run_scheduled_job_found
    self id (i : nat) job online emissions started stopped :
  list_find (λ j, job_id j = id) (job_queue self) = Some (i, job) →
  0 <= duration_minutes job →
  let ledger := emissions_tracker self in
  let seconds := (inject_Z (stopped - started) / 1000000)%Q in
  run_scheduled_job self id online emissions started stopped
  = (mkScheduler (alter (run_job emissions) i (job_queue self))
       (EmissionsTracker.mkTracker (EmissionsTracker.country_code ledger)
          (Some (if online
                 then EmissionsTracker.EmissionsTracker ("greengl_" +:+ name job)
                 else EmissionsTracker.OfflineEmissionsTracker
                        (EmissionsTracker.country_code ledger)))
          (EmissionsTracker.emissions_log ledger
           ++ [EmissionsTracker.mkRecord (name job) emissions seconds stopped
                 (EmissionsTracker.country_code ledger)])
          (Some (name job)) (Some started))
       (schedule_history self),
     Returned (Completed id emissions seconds)).
Proof.
  intros Hfind Hdur ledger seconds. unfold run_scheduled_job.
  rewrite Hfind, update_job_status_find, Hfind.
  unfold EmissionsTracker.start_tracking.
  destruct (Z.ltb_spec (Z.min 5 (duration_minutes job)) 0) as [?|_]; [lia|].
  unfold EmissionsTracker.stop_tracking. cbn.
  pose proof (list_find_alter (set_status RUNNING) _ _ _ _
                (set_status_job_id RUNNING) Hfind) as Hfind1.
  pose proof (list_find_alter (set_emissions_avoided_kg emissions) _ _ _ _
                (λ j, eq_refl) Hfind1) as Hfind2.
  rewrite update_job_status_find, Hfind2. cbn.
  by rewrite !list_alter_alter_eq.
Qed.

(** X14. [run_scheduled_job] ends in one of three ways and no other: the
    error result when no job has the id, [ValueError] (from [time.sleep])
    when the job found has a negative duration, the completed result
    otherwise.  The empty dict of [stop_tracking] is never met, so the
    lookup of [emissions_kg_co2] never fails. *)
Theorem run_scheduled_job_outcomes
    self id online emissions started stopped :
  let result :=
    (run_scheduled_job self id online emissions started stopped).2 in
  match list_find (λ j, job_id j = id) (job_queue self) with
  | None => result = Returned (Error "Job not found")
  | Some (_, job) =>
      if duration_minutes job <? 0 then result = Raised ValueError
      else result
           = Returned (Completed id emissions
                         (inject_Z (stopped - started) / 1000000)%Q)
  end.
Proof.
  intros result. unfold result.
  destruct (list_find _ _) as [[i job]|] eqn:Hfind.
  - destruct (Z.ltb_spec (duration_minutes job) 0) as [Hneg|Hpos].
    + unfold run_scheduled_job. rewrite Hfind.
      unfold EmissionsTracker.start_tracking.
      destruct (Z.ltb_spec (Z.min 5 (duration_minutes job)) 0); [done|lia].
    + by rewrite (run_scheduled_job_found _ _ i job).
  - unfold run_scheduled_job. by rewrite Hfind.
Qed.

(** X15. A run of a job whose duration is negative stops half way: it
    raises [ValueError] with the job left [RUNNING], the tracking bracket
    open, and nothing appended to the emissions log or written to the
    other jobs. *)
Theorem run_scheduled_job_negative_duration
    self id (i : nat) job online emissions started stopped :
  list_find (λ j, job_id j = id) (job_queue self) = Some (i, job) →
  duration_minutes job < 0 →
  let '(self', result) :=
    run_scheduled_job self id online emissions started stopped in
  result = Raised ValueError
  ∧ job_queue self' = alter (set_status RUNNING) i (job_queue self)
  ∧ status <$> job_queue self' !! i = Some RUNNING
  ∧ EmissionsTracker.tracker (emissions_tracker self') ≠ None
  ∧ EmissionsTracker.start_time (emissions_tracker self') = Some started
  ∧ EmissionsTracker.emissions_log (emissions_tracker self')
    = EmissionsTracker.emissions_log (emissions_tracker self)
  ∧ schedule_history self' = schedule_history self.
Proof.
  intros Hfind Hneg. unfold run_scheduled_job.
  rewrite Hfind, update_job_status_find, Hfind.
  unfold EmissionsTracker.start_tracking.
  destruct (Z.ltb_spec (Z.min 5 (duration_minutes job)) 0); [|lia].
  apply list_find_Some in Hfind as (Hi & _ & _).
  cbn. split_and!; try done.
  by rewrite list_lookup_alter_eq, Hi.
Qed.

Lemma run_scheduled_job_negative_duration_witness :
  let job := new_job "77aa01bc" "broken" (-1) 250 3 400 0 in
  let '(self', result) :=
    run_scheduled_job (scheduler_of [train; job]) "77aa01bc" true (1 # 2)
      0 5000000 in
  result = Raised ValueError
  ∧ status <$> job_queue self' !! 1%nat = Some RUNNING.
Proof.
  intros job.
  pose proof (run_scheduled_job_negative_duration (scheduler_of [train; job])
                "77aa01bc" 1%nat job true (1 # 2)%Q 0 5000000 eq_refl) as H.
  assert (duration_minutes job < 0) as Hneg by reflexivity.
  specialize (H Hneg).
  destruct (run_scheduled_job _ _ _ _ _ _) as [self' result].
  destruct H as (Hr & _ & Hst & _). by split.
Defined.

Lemma Qsum_snoc (l : list Q) (x : Q) :
  (EmissionsTracker.Qsum (l ++ [x]) == EmissionsTracker.Qsum l + x)%Q.
Proof.
  induction l as [|y l IH]; simpl.
  - ring.
  - rewrite IH. ring.
Qed.

(** X16. A completed run adds its measurement to the ledger: the total of
    [get_total_emissions] grows by the emissions measured, the log by one
    record, and the job carries the same figure in
    [emissions_avoided_kg]. *)
Theorem run_scheduled_job_ledger
    self id (i : nat) job online emissions started stopped :
  list_find (λ j, job_id j = id) (job_queue self) = Some (i, job) →
  0 <= duration_minutes job →
  let self' :=
    (run_scheduled_job self id online emissions started stopped).1 in
  (EmissionsTracker.get_total_emissions (emissions_tracker self')
   == EmissionsTracker.get_total_emissions (emissions_tracker self)
      + emissions)%Q
  ∧ length (EmissionsTracker.emissions_log (emissions_tracker self'))
    = S (length (EmissionsTracker.emissions_log (emissions_tracker self)))
  ∧ emissions_avoided_kg <$> job_queue self' !! i = Some emissions.
Proof.
  intros Hfind Hdur self'. unfold self'.
  rewrite (run_scheduled_job_found _ _ i job) by done. cbn.
  apply list_find_Some in Hfind as (Hi & _ & _).
  unfold EmissionsTracker.get_total_emissions. cbn.
  split_and!.
  - rewrite fmap_app. apply Qsum_snoc.
  - rewrite length_app. simpl. lia.
  - by rewrite list_lookup_alter_eq, Hi.
Qed.

Lemma run_scheduled_job_ledger_witness :
  let self' :=
    (run_scheduled_job (scheduler_of [train; render]) "b81e44d2" false
       (3 # 4) 0 5000000).1 in
  emissions_avoided_kg <$> job_queue self' !! 1%nat = Some (3 # 4)%Q.
Proof.
  intros self'.
  assert (0 <= duration_minutes render) as Hd by (vm_compute; discriminate).
  exact (proj2 (proj2 (run_scheduled_job_ledger (scheduler_of [train; render])
                         "b81e44d2" 1%nat render false (3 # 4)%Q 0 5000000
                         eq_refl Hd))).
Defined.

End RunOutcomes.

(** ** The emissions ledger: brackets and the summary *)

Section LedgerMore.
Import EmissionsTracker.

(** X17. A bracket, start to stop: [stop_tracking] after [start_tracking]
    returns the record of that bracket (the label given to start, the
    emissions measured, the seconds between the two clock readings, the
    country of the ledger) and appends exactly that record to the log,
    whatever the ledger held before. *)
Theorem start_then_stop self job_name online started emissions stopped :
  let self1 := (start_tracking self job_name online started).1 in
  let record :=
    mkRecord job_name emissions (inject_Z (stopped - started) / 1000000)%Q
      stopped (country_code self) in
  let '(self2, result) := stop_tracking self1 emissions stopped in
  result = Returned (Some record)
  ∧ emissions_log self2 = emissions_log self ++ [record]
  ∧ country_code self2 = country_code self.
Proof. done. Qed.

(** X18. [stop_tracking] does not close the bracket: the tracker, the
    label and the start time stay as they were, so a second
    [stop_tracking] without a new start returns and appends a second
    record, for the same label and measured from the same start. *)
Theorem stop_tracking_keeps_bracket
    self instr label started emissions1 stopped1 emissions2 stopped2 :
  tracker self = Some instr →
  current_job self = Some label →
  start_time self = Some started →
  let self1 := (stop_tracking self emissions1 stopped1).1 in
  let record (emissions : Q) (stopped : timestamp) :=
    mkRecord label emissions (inject_Z (stopped - started) / 1000000)%Q
      stopped (country_code self) in
  tracker self1 = Some instr
  ∧ current_job self1 = Some label
  ∧ start_time self1 = Some started
  ∧ stop_tracking self1 emissions2 stopped2
    = (mkTracker (country_code self) (Some instr)
         (emissions_log self
          ++ [record emissions1 stopped1; record emissions2 stopped2])
         (Some label) (Some started),
       Returned (Some (record emissions2 stopped2))).
Proof.
  intros Htr Hjob Hstart. unfold stop_tracking.
  rewrite Htr, Hjob, Hstart. cbn. split_and!; try done.
  by rewrite <- app_assoc.
Qed.

Lemma stop_tracking_keeps_bracket_witness :
  let self := (start_tracking (init "IN") "train" true 0).1 in
  let self1 := (stop_tracking self (1 # 2) 5000000).1 in
  length (emissions_log (stop_tracking self1 (1 # 4) 9000000).1) = 2%nat.
Proof.
  intros self self1.
  destruct (stop_tracking_keeps_bracket self
              (EmissionsTracker "greengl_train") "train" 0
              (1 # 2)%Q 5000000 (1 # 4)%Q 9000000 eq_refl eq_refl eq_refl)
    as (_ & _ & _ & H).
  unfold self1. by rewrite H.
Defined.

Lemma Qmax_fold_bounds (x : Q) (l : list Q) :
  (x <= foldr Qmax x l)%Q ∧ Forall (λ y, (y <= foldr Qmax x l)%Q) l.
Proof.
  induction l as [|y l [IHx IHl]]; simpl; [split; [apply Qle_refl|done]|].
  split; [eapply Qle_trans; [exact IHx|apply Q.le_max_r]|].
  constructor; [apply Q.le_max_l|].
  eapply Forall_impl; [exact IHl|]. intros z Hz. simpl in Hz.
  eapply Qle_trans; [exact Hz|apply Q.le_max_r].
Qed.

Lemma Qmin_fold_bounds (x : Q) (l : list Q) :
  (foldr Qmin x l <= x)%Q ∧ Forall (λ y, (foldr Qmin x l <= y)%Q) l.
Proof.
  induction l as [|y l [IHx IHl]]; simpl; [split; [apply Qle_refl|done]|].
  split; [eapply Qle_trans; [apply Q.le_min_r|exact IHx]|].
  constructor; [apply Q.le_min_l|].
  eapply Forall_impl; [exact IHl|]. intros z Hz. simpl in Hz.
  eapply Qle_trans; [apply Q.le_min_r|exact Hz].
Qed.

(** X20. On a ledger with at least one record the summary has
    [max_single_job_kg] and [min_single_job_kg], and they bound the
    emissions of every record: none is above the maximum, none below the
    minimum. *)
Theorem get_emissions_summary_max_min country instr r rs job started :
  let self := mkTracker country instr (r :: rs) job started in
  let summary := get_emissions_summary self in
  ∃ hi lo,
    getitem summary "max_single_job_kg" = Returned hi
    ∧ getitem summary "min_single_job_kg" = Returned lo
    ∧ ∀ record, record ∈ emissions_log self →
        (lo <= emissions_kg_co2 record)%Q ∧ (emissions_kg_co2 record <= hi)%Q.
Proof.
  intros self summary. eexists _, _. split_and!; [done|done|].
  intros record Hin. cbn in Hin.
  destruct (Qmax_fold_bounds (emissions_kg_co2 r) (emissions_kg_co2 <$> rs))
    as [Hmax_r Hmax].
  destruct (Qmin_fold_bounds (emissions_kg_co2 r) (emissions_kg_co2 <$> rs))
    as [Hmin_r Hmin].
  rewrite Forall_fmap, Forall_forall in Hmax, Hmin.
  apply elem_of_cons in Hin as [->|Hin]; [done|].
  split; [by apply Hmin|by apply Hmax].
Qed.

End LedgerMore.

(** ** The dashboard: statistics and the button that runs the next job *)

Section DashboardFacts.
Import JobQueue CarbonScheduler Policy Dashboard Examples.

Lemma get_jobs_by_status_lengths (jobs : jobs_t) :
  (length (get_jobs_by_status jobs PENDING)
   + length (get_jobs_by_status jobs SCHEDULED)
   + length (get_jobs_by_status jobs COMPLETED)
   + length (get_jobs_by_status jobs RUNNING)
   + length (get_jobs_by_status jobs DEFERRED) = length jobs)%nat.
Proof.
  unfold get_jobs_by_status. induction jobs as [|j jobs IH]; [done|].
  rewrite !filter_cons.
  destruct (status j); repeat case_decide; try done; simpl; lia.
Qed.

(** X21. [get_dashboard_stats] answers on every state, the empty ledger
    included: it reads only keys that both branches of the summary have.
    Its three counts leave out the running and the deferred jobs, with
    which they add up to the number of jobs submitted; the figure shown
    as emissions avoided is the total of the emissions measured; and the
    history shown is the last ten entries at most. *)
Theorem get_dashboard_stats_answers self :
  ∃ stats,
    get_dashboard_stats self = Returned stats
    ∧ total_jobs_submitted stats = length (job_queue self)
    ∧ (pending stats + scheduled stats + completed stats
       + length (get_jobs_by_status (job_queue self) RUNNING)
       + length (get_jobs_by_status (job_queue self) DEFERRED)
       = total_jobs_submitted stats)%nat
    ∧ emissions_avoided_kg_ stats = total_emissions_kg stats
    ∧ (total_emissions_kg stats
       == EmissionsTracker.get_total_emissions (emissions_tracker self))%Q
    ∧ (length (stats_schedule_history stats) ≤ 10)%nat
    ∧ stats_schedule_history stats `suffix_of` schedule_history self
    ∧ ((length (schedule_history self) ≤ 10)%nat →
       stats_schedule_history stats = schedule_history self).
Proof.
  unfold get_dashboard_stats, EmissionsTracker.get_emissions_summary,
    EmissionsTracker.get_total_emissions.
  assert (∀ (h : list ScheduleResult),
            (length (last_n 10 h) ≤ 10)%nat
            ∧ last_n 10 h `suffix_of` h
            ∧ ((length h ≤ 10)%nat → last_n 10 h = h)) as Hlast.
  { intros h. unfold last_n. split_and!.
    - rewrite length_drop. lia.
    - apply suffix_drop.
    - intros Hle. by replace (length h - 10)%nat with 0%nat by lia. }
  destruct (Hlast (schedule_history self)) as (Hlen & Hsuf & Hall).
  destruct (EmissionsTracker.emissions_log (emissions_tracker self))
    as [|r rs]; cbn; eexists; (split; [reflexivity|]); cbn;
    (split_and!; [done|apply get_jobs_by_status_lengths|done|done..]).
Qed.

(** The first element of a filtered list, in the list filtered. *)
Lemma filter_head {A} (P : A → Prop) `{!∀ x, Decision (P x)}
    (l : list A) x rest :
  filter P l = x :: rest →
  ∃ i : nat, l !! i = Some x ∧ P x
             ∧ (∀ (k : nat) y, (k < i)%nat → l !! k = Some y → ¬ P y)
             ∧ ∀ f : A → A, ¬ P (f x) → filter P (alter f i l) = rest.
Proof.
  induction l as [|y l IH]; [done|].
  rewrite filter_cons. destruct (decide (P y)) as [Hy|Hy].
  - intros [= -> <-]. exists 0%nat. split_and!; [done|done| |].
    + intros k z Hk. lia.
    + intros f Hf. cbn [alter list_alter].
      by rewrite filter_cons, decide_False.
  - intros (i & Hi & Hx & Hbefore & Hafter)%IH. exists (S i).
    split_and!; [done|done| |].
    + intros [|k] z Hk Hz; simpl in Hz; [by injection Hz as <-|].
      apply (Hbefore k); [lia|done].
    + intros f Hf. cbn [alter list_alter].
      rewrite filter_cons, decide_False by done.
      by apply Hafter.
Qed.

(** X22. "Run Next Scheduled Job" takes the scheduled job that was
    submitted first, not the one of highest priority.  With unique ids and
    a duration that is not negative the job is found and run: the handler
    ends with the emissions measured, never with the missing key of the
    error result, the job is [COMPLETED] and the scheduled list is the
    former one without its first job.  With no scheduled job nothing
    changes. *)
Theorem run_next_scheduled_job_first self online emissions started stopped :
  (get_jobs_by_status (job_queue self) SCHEDULED = [] →
   run_next_scheduled_job self online emissions started stopped
   = (self, None))
  ∧ ∀ next rest,
      get_jobs_by_status (job_queue self) SCHEDULED = next :: rest →
      NoDup (job_id <$> job_queue self) →
      0 <= duration_minutes next →
      let '(self', result) :=
        run_next_scheduled_job self online emissions started stopped in
      result = Some (Returned emissions)
      ∧ get_jobs_by_status (job_queue self') SCHEDULED = rest
      ∧ ∃ i : nat,
          job_queue self !! i = Some next
          ∧ (∀ (k : nat) job, (k < i)%nat → job_queue self !! k = Some job →
                              status job ≠ SCHEDULED)
          ∧ job_queue self' = alter (run_job emissions) i (job_queue self).
Proof.
  unfold run_next_scheduled_job. split; [by intros ->|].
  intros next rest Hsched Hnd Hdur. rewrite Hsched.
  unfold get_jobs_by_status in Hsched.
  apply filter_head in Hsched as (i & Hi & Hst & Hbefore & Hafter).
  assert (list_find (λ j, job_id j = job_id next) (job_queue self)
          = Some (i, next)) as Hfind.
  { apply list_find_Some. split_and!; [done|done|].
    intros k job Hk Hlt Hid.
    assert (k = i); [|lia].
    eapply (NoDup_lookup _ _ _ _ Hnd); rewrite list_lookup_fmap.
    - by rewrite Hk.
    - rewrite Hi. simpl. by rewrite Hid. }
  rewrite (run_scheduled_job_found _ _ i next) by done.
  cbn. split_and!; [done| |].
  - unfold get_jobs_by_status. by apply Hafter.
  - exists i. split_and!; done.
Qed.

Lemma run_next_scheduled_job_first_witness :
  let low := set_status SCHEDULED train in
  let high := set_status SCHEDULED render in
  let '(self', result) :=
    run_next_scheduled_job (scheduler_of [low; high]) true (1 # 2)
      0 5000000 in
  result = Some (Returned (1 # 2)%Q)
  ∧ get_jobs_by_status (job_queue self') SCHEDULED = [high].
Proof.
  intros low high.
  pose proof (proj2 (run_next_scheduled_job_first (scheduler_of [low; high])
                       true (1 # 2)%Q 0 5000000) low [high] eq_refl) as H.
  assert (NoDup (job_id <$> job_queue (scheduler_of [low; high]))) as Hnd
    by (apply (bool_decide_unpack _); vm_compute; exact I).
  assert (0 <= duration_minutes low) as Hd by (vm_compute; discriminate).
  specialize (H Hnd Hd).
  destruct (run_next_scheduled_job _ _ _ _ _) as [self' result].
  destruct H as (Hr & Hs & _). by split.
Defined.

End DashboardFacts.

(** ** The carbon signal client: every outcome, and the mock table *)

Section SignalMore.
Import CarbonApi Signal Examples.

(** The result of the code's classification of a number. *)
Lemma classified_fields (x : pynum) now region (a b c : Greenness * string) :
  let g :=
    let '(greenness, recommendation) :=
      if num_lt x 200 then a else if num_lt x 400 then b else c in
    mkGridStatus x now greenness recommendation region "gCO2/kWh" false in
  carbonIntensity g = x ∧ CarbonApi.region g = region ∧ timestamp_ g = now
  ∧ greenness g
    = (if num_lt x 200 then a else if num_lt x 400 then b else c).1.
Proof.
  destruct (num_lt x 200); [by destruct a|].
  destruct (num_lt x 400); [by destruct b|by destruct c].
Qed.

Lemma get_grid_carbon_intensity_cases region resp raw now :
  get_grid_carbon_intensity region resp raw now
  = _get_mock_data region raw now
  ∨ ∃ x,
      get_grid_carbon_intensity region resp raw now
      = let '(greenness, recommendation) :=
          if num_lt x 200
          then (HIGH, "✅ Schedule jobs NOW - Clean grid"%string)
          else if num_lt x 400
          then (MEDIUM, "⏳ Wait for better conditions"%string)
          else (LOW, "❌ Defer jobs - Dirty grid"%string) in
        mkGridStatus x now greenness recommendation region "gCO2/kWh" false.
Proof.
  destruct (detected_failure resp) eqn:Hd;
    [left; by apply detected_failure_mock|].
  right. unfold detected_failure in Hd.
  unfold get_grid_carbon_intensity, fetch.
  destruct resp as [|code [json|]]; [done| |by destruct (code =? 200)].
  destruct (code =? 200); [|done].
  destruct json as [|b|x|s|l|d]; try done.
  destruct (dict_get d "carbonIntensity") as [[|b|x|s|l|d']|]; try done.
  - exists (PFin (if b then 1 else 0)%Q).
    unfold as_number; cbn [from_option id].
    destruct (num_lt _ 200); [done|]. by destruct (num_lt _ 400).
  - exists x. unfold as_number; cbn [from_option id].
    destruct (num_lt _ 200); [done|]. by destruct (num_lt _ 400).
  - by exists (PFin 500).
Qed.

Lemma _get_mock_data_greenness region raw now :
  let v := baseline region + randint (-100) 100 raw in
  greenness (_get_mock_data region raw now)
  = (if v <? 200 then HIGH else if v <? 400 then MEDIUM else LOW)
  ∧ timestamp_ (_get_mock_data region raw now) = now.
Proof.
  intros v. unfold _get_mock_data. fold (baseline region). fold v.
  destruct (v <? 200); [done|]. by destruct (v <? 400).
Qed.

(** X23. Whatever the request gives (a usable response, nan or an infinity
    in the payload, a boolean, a failure answered with mock data), the
    greenness returned is the one of the intensity returned by the bounds
    200 and 400, so nan and everything at or above 400 is [LOW]; and the
    status is for the region that was asked and carries the clock. *)
Theorem get_grid_carbon_intensity_consistent region resp raw now :
  let g := get_grid_carbon_intensity region resp raw now in
  greenness g
  = (if num_lt (carbonIntensity g) 200 then HIGH
     else if num_lt (carbonIntensity g) 400 then MEDIUM else LOW)
  ∧ CarbonApi.region g = region
  ∧ timestamp_ g = now.
Proof.
  cbv zeta.
  destruct (get_grid_carbon_intensity_cases region resp raw now)
    as [->|[x ->]].
  - destruct (_get_mock_data_fields region raw now) as (_ & Hr & ->).
    destruct (_get_mock_data_greenness region raw now) as [-> Ht].
    by rewrite !num_lt_inject_Z.
  - destruct (classified_fields x now region
                (HIGH, "✅ Schedule jobs NOW - Clean grid"%string)
                (MEDIUM, "⏳ Wait for better conditions"%string)
                (LOW, "❌ Defer jobs - Dirty grid"%string))
      as (-> & Hr & Ht & ->).
    split_and!; [|done|done].
    destruct (num_lt x 200); [done|]. by destruct (num_lt x 400).
Qed.

Lemma baseline_cases (region : string) :
  (region = "NO"%string ∧ baseline region = 50)
  ∨ (region ≠ "NO"%string ∧ 350 <= baseline region <= 800).
Proof.
  unfold baseline, mock_data. cbn [mock_data_get].
  destruct (String.eqb_spec "IN" region) as [<-|_]; [right; split; [done|lia]|].
  destruct (String.eqb_spec "US" region) as [<-|_]; [right; split; [done|lia]|].
  destruct (String.eqb_spec "DE" region) as [<-|_]; [right; split; [done|lia]|].
  destruct (String.eqb_spec "NO" region) as [<-|Hno]; [by left|].
  right. split; [done|].
  destruct (String.eqb_spec "AU" region); lia.
Qed.

(** X24. The mock data by region: for NO it is always [HIGH], with an
    intensity between -50 and 150 that can be negative; for every other
    region, in the table or not, the intensity is an integer between 250
    and 900 and the greenness is never [HIGH]; a region that is not in
    the table gets the baseline 500 and is always [LOW]. *)
Theorem _get_mock_data_by_region region raw now :
  let g := _get_mock_data region raw now in
  ∃ v : Z,
    carbonIntensity g = PFin (inject_Z v)
    ∧ (region = "NO"%string → greenness g = HIGH ∧ -50 <= v <= 150)
    ∧ (region ≠ "NO"%string → greenness g ≠ HIGH ∧ 250 <= v <= 900)
    ∧ (region ∉ mock_data.*1 → greenness g = LOW ∧ 400 <= v <= 600).
Proof.
  intros g. unfold g.
  destruct (_get_mock_data_fields region raw now) as (_ & _ & Hv).
  destruct (_get_mock_data_greenness region raw now) as [Hg _].
  exists (baseline region + randint (-100) 100 raw).
  pose proof (randint_bounds (-100) 100 raw) as Hr.
  rewrite Hg. split_and!; [done| | |].
  - intros ->. destruct (baseline_cases "NO") as [[_ Hb]|[Hne _]]; [|done].
    split; [|lia].
    destruct (Z.ltb_spec (baseline "NO" + randint (-100) 100 raw) 200);
      [done|lia].
  - intros Hne. destruct (baseline_cases region) as [[-> _]|[_ Hb]]; [done|].
    split; [|lia].
    destruct (Z.ltb_spec (baseline region + randint (-100) 100 raw) 200);
      [lia|]. by destruct (_ <? 400).
  - intros Hnot. assert (baseline region = 500) as Hb.
    { unfold baseline, mock_data. cbn [mock_data_get].
      unfold mock_data in Hnot. cbn [fmap list_fmap fst] in Hnot.
      destruct (String.eqb_spec "IN" region) as [<-|_];
        [destruct Hnot; repeat constructor|].
      destruct (String.eqb_spec "US" region) as [<-|_];
        [destruct Hnot; repeat constructor|].
      destruct (String.eqb_spec "DE" region) as [<-|_];
        [destruct Hnot; repeat constructor|].
      destruct (String.eqb_spec "NO" region) as [<-|_];
        [destruct Hnot; repeat constructor|].
      destruct (String.eqb_spec "AU" region) as [<-|_];
        [destruct Hnot; repeat constructor|].
      done. }
    split; [|lia].
    destruct (Z.ltb_spec (baseline region + randint (-100) 100 raw) 200);
      [lia|].
    destruct (Z.ltb_spec (baseline region + randint (-100) 100 raw) 400);
      [lia|done].
Qed.

Lemma _get_mock_data_by_region_witness :
  greenness (_get_mock_data "NO" 57 0) = HIGH
  ∧ greenness (_get_mock_data "DE" 57 0) ≠ HIGH
  ∧ greenness (_get_mock_data "FR" 57 0) = LOW.
Proof.
  destruct (_get_mock_data_by_region "NO" 57 0) as (v1 & _ & Hno & _ & _).
  destruct (_get_mock_data_by_region "DE" 57 0) as (v2 & _ & _ & Hde & _).
  destruct (_get_mock_data_by_region "FR" 57 0) as (v3 & _ & _ & _ & Hfr).
  split_and!.
  - by apply Hno.
  - by apply Hde.
  - apply Hfr. vm_compute. intros Hin.
    repeat (apply elem_of_cons in Hin as [Hin|Hin]; [discriminate Hin|]).
    by apply elem_of_nil in Hin.
Defined.

End SignalMore.

(** ** The comparison of regions *)

Section MinFacts.
Context {A : Type} (key : A → pynum).

Lemma min_from_elem (best : A) (l : list A) : min_from key best l ∈ best :: l.
Proof.
  revert best. induction l as [|x l IH]; intros best; simpl; [by left|].
  specialize (IH (if pynum_lt (key x) (key best) then x else best)).
  apply elem_of_cons in IH as [->|IH].
  - destruct (pynum_lt _ _); [right; by left|by left].
  - right. by right.
Qed.

(** On finite keys [min] returns the first item of the smallest key:
    every item before it has a larger key, no item after it a smaller
    one. *)
Lemma min_from_first (q : A → Q) (best : A) (l : list A) :
  (∀ x, x ∈ best :: l → key x = PFin (q x)) →
  ∃ pre post,
    best :: l = pre ++ min_from key best l :: post
    ∧ Forall (λ x, (q (min_from key best l) < q x)%Q) pre
    ∧ Forall (λ x, (q (min_from key best l) <= q x)%Q) post.
Proof.
  revert best. induction l as [|x l IH]; intros best Hfin.
  - exists [], []. by split_and!.
  - cbn [min_from].
    rewrite (Hfin x) by (right; by left). rewrite (Hfin best) by (by left).
    cbn [pynum_lt]. destruct (Qltb (q x) (q best)) eqn:E.
    + apply Qltb_lt in E.
      destruct (IH x) as (pre & post & Heq & Hpre & Hpost).
      { intros y Hy. apply Hfin. by right. }
      exists (best :: pre), post. split_and!; [by rewrite Heq| |done].
      constructor; [|done].
      destruct pre as [|p pre]; simpl in Heq.
      * injection Heq as Hx _. by rewrite <- Hx.
      * injection Heq as <- _. apply Forall_cons in Hpre as [Hp _].
        by eapply Qlt_trans.
    + apply Qltb_ge in E.
      destruct (IH best) as (pre & post & Heq & Hpre & Hpost).
      { intros y Hy. apply Hfin.
        apply elem_of_cons in Hy as [->|Hy]; [by left|by do 2 right]. }
      destruct pre as [|p pre]; simpl in Heq.
      * injection Heq as Hb Hl. exists [], (x :: post).
        split_and!; [simpl; by rewrite <- Hb, Hl|done|].
        constructor; [by rewrite <- Hb|done].
      * injection Heq as <- Hl. exists (best :: x :: pre), post.
        apply Forall_cons in Hpre as [Hp Hpre].
        split_and!; [simpl; do 2 f_equal; exact Hl| |done].
        constructor; [done|]. constructor; [|done].
        by eapply Qlt_le_trans.
Qed.
End MinFacts.

Section CompareRegions.
Import CarbonApi Signal Examples.

Lemma dict_set_keys d k v :
  (dict_set d k v).*1 = if decide (k ∈ d.*1) then d.*1 else d.*1 ++ [k].
Proof.
  induction d as [|[k' v'] d IH]; [done|].
  cbn [dict_set]. destruct (String.eqb_spec k' k) as [->|Hne].
  - rewrite decide_True; [done|]. by left.
  - rewrite !fmap_cons, IH. cbn [fst].
    destruct (decide (k ∈ d.*1)) as [Hin|Hnin].
    + rewrite decide_True; [done|]. by right.
    + rewrite decide_False; [done|].
      intros [?|?]%elem_of_cons; [by apply Hne|done].
Qed.

Lemma dict_set_Forall (P : string * GridStatus → Prop) d k v :
  Forall P d → P (k, v) → Forall P (dict_set d k v).
Proof.
  intros Hd Hkv. induction Hd as [|[k' v'] d Hk' Hd IH]; cbn [dict_set].
  - by constructor.
  - destruct (String.eqb_spec k' k) as [->|Hne]; by constructor.
Qed.

Lemma get_grid_carbon_intensity_region region resp raw now :
  CarbonApi.region (get_grid_carbon_intensity region resp raw now) = region.
Proof.
  destruct (get_grid_carbon_intensity_cases region resp raw now)
    as [->|[x ->]].
  - by destruct (_get_mock_data_fields region raw now) as (_ & Hr & _).
  - destruct (num_lt x 200); [done|]. by destruct (num_lt x 400).
Qed.

Lemma compare_regions_keys regions world (n : nat) now d :
  NoDup d.*1 →
  Forall (λ kv, CarbonApi.region kv.2 = kv.1) d →
  let c := compare_regions regions world n now d in
  NoDup c.*1
  ∧ (∀ r, r ∈ c.*1 ↔ r ∈ d.*1 ∨ r ∈ regions)
  ∧ Forall (λ kv, CarbonApi.region kv.2 = kv.1) c.
Proof.
  revert n d. induction regions as [|region regions IH]; intros n d Hnd Hreg.
  - cbn. split_and!; [done| |done]. intros r. rewrite elem_of_nil. tauto.
  - cbn [compare_regions]. destruct (world n) as [resp raw].
    destruct (IH (S n)
                (dict_set d region
                   (get_grid_carbon_intensity region resp raw now)))
      as (Hnd' & Hkeys & Hreg').
    + rewrite dict_set_keys. case_decide; [done|].
      apply NoDup_app. split_and!; [done| |apply NoDup_singleton].
      intros r Hr [->|[]%elem_of_nil]%elem_of_cons. done.
    + apply dict_set_Forall; [done|].
      apply get_grid_carbon_intensity_region.
    + split_and!; [done| |done].
      intros r. rewrite Hkeys, dict_set_keys, elem_of_cons.
      case_decide as Hin.
      * split; [tauto|]. intros [?|[->|?]]; tauto.
      * rewrite elem_of_app, list_elem_of_singleton. tauto.
Qed.

(** X25. [get_multi_region_comparison] raises [ValueError] on no region.
    On one region or more it returns one status per distinct region
    asked, each for its own region, and a greenest region that is one of
    those asked, with the intensity of its status.  When the intensities
    are finite the greenest intensity is the smallest, and among regions
    of that intensity the one that comes first in the comparison wins. *)
Theorem get_multi_region_comparison_greenest regions world now :
  (regions = [] →
   get_multi_region_comparison regions world now = Raised ValueError)
  ∧ (regions ≠ [] →
     ∃ c g,
       get_multi_region_comparison regions world now = Returned c
       ∧ (greenest_region c, g) ∈ regions_ c
       ∧ carbonIntensity g = greenest_intensity c
       ∧ greenest_region c ∈ regions
       ∧ NoDup (regions_ c).*1
       ∧ (∀ r, r ∈ (regions_ c).*1 ↔ r ∈ regions)
       ∧ Forall (λ kv, CarbonApi.region kv.2 = kv.1) (regions_ c)
       ∧ (Forall (λ kv, ∃ q, carbonIntensity kv.2 = PFin q) (regions_ c) →
          ∃ pre post,
            regions_ c = pre ++ (greenest_region c, g) :: post
            ∧ Forall (λ kv, pynum_lt (greenest_intensity c)
                              (carbonIntensity kv.2) = true) pre
            ∧ Forall (λ kv, pynum_lt (carbonIntensity kv.2)
                              (greenest_intensity c) = false) post)).
Proof.
  split; [by intros ->|]. intros Hne.
  unfold get_multi_region_comparison.
  destruct (compare_regions_keys regions world 0 now [])
    as (Hnd & Hkeys & Hreg); [constructor|constructor|].
  set (comparison := compare_regions regions world 0 now []) in *.
  assert (∀ r, r ∈ comparison.*1 ↔ r ∈ regions) as Hkeys'.
  { intros r. rewrite Hkeys, elem_of_nil. tauto. }
  destruct comparison as [|kv rest] eqn:Hc.
  { destruct regions as [|r regions]; [done|].
    assert (r ∈ @nil string) as Hin by (apply Hkeys'; by left).
    by apply elem_of_nil in Hin. }
  cbn [py_min].
  set (key := λ item : string * GridStatus, carbonIntensity item.2).
  pose proof (min_from_elem key kv rest) as Hin.
  destruct (min_from key kv rest) as [code data] eqn:Hmin.
  exists (mkComparison (kv :: rest) code (carbonIntensity data) now), data.
  cbn [regions_ greenest_region greenest_intensity].
  split_and!; try done.
  - apply Hkeys'. by apply (list_elem_of_fmap_2 fst) in Hin.
  - intros Hfin.
    set (q := λ item : string * GridStatus,
                match carbonIntensity item.2 with PFin x => x | _ => 0%Q end).
    destruct (min_from_first key q kv rest) as (pre & post & Heq & Hpre & Hpost).
    { intros item Hitem. rewrite Forall_forall in Hfin.
      destruct (Hfin item Hitem) as [x Hx]. unfold key, q. by rewrite Hx. }
    rewrite Hmin in Heq, Hpre, Hpost. exists pre, post.
    assert (∀ item, item ∈ kv :: rest →
              carbonIntensity item.2 = PFin (q item)) as Hq.
    { intros item Hitem. rewrite Forall_forall in Hfin.
      destruct (Hfin item Hitem) as [x Hx]. unfold q. by rewrite Hx. }
    pose proof (Hq (code, data) Hin) as Hdata. cbn [snd] in Hdata.
    split_and!; [done| |].
    + apply Forall_forall. intros item Hitem.
      rewrite Forall_forall in Hpre.
      rewrite Hdata, (Hq item)
        by (rewrite Heq; apply elem_of_app; by left).
      cbn [pynum_lt]. apply Qltb_lt. by apply Hpre.
    + apply Forall_forall. intros item Hitem.
      rewrite Forall_forall in Hpost.
      rewrite Hdata, (Hq item)
        by (rewrite Heq; apply elem_of_app; right; by right).
      cbn [pynum_lt]. apply Qltb_ge. by apply Hpost.
Qed.

Lemma get_multi_region_comparison_greenest_witness :
  ∃ c, get_multi_region_comparison ["US"; "NO"; "US"]%string
         (λ _, (Failed, 57)) 0 = Returned c
       ∧ greenest_region c ∈ ["US"; "NO"; "US"]%string.
Proof.
  destruct (proj2 (get_multi_region_comparison_greenest
                     ["US"; "NO"; "US"]%string (λ _, (Failed, 57)) 0))
    as (c & g & Hc & _ & _ & Hin & _); [discriminate|].
  exists c. by split.
Defined.

End CompareRegions.

(** ** Further instances *)

Section MoreWitnesses.
Import JobQueue CarbonScheduler EmissionsTracker Examples.

Lemma update_job_status_found_witness :
  (update_job_status [train; render] "00000000" RUNNING).1 = [train; render].
Proof.
  apply (proj2 (update_job_status_found [train; render] "00000000" RUNNING)).
  reflexivity.
Defined.

Lemma get_emissions_summary_max_min_witness :
  let first := mkRecord "train" (1 # 2) 5 5000000 "IN" in
  let second := mkRecord "render" (3 # 4) 7 9000000 "IN" in
  ∃ hi lo, (lo <= emissions_kg_co2 second)%Q
           ∧ (emissions_kg_co2 second <= hi)%Q
           ∧ getitem (get_emissions_summary
                        (mkTracker "IN" None [first; second] None None))
               "max_single_job_kg" = Returned hi.
Proof.
  intros first second.
  destruct (get_emissions_summary_max_min "IN" None first [second] None None)
    as (hi & lo & Hhi & _ & Hbounds).
  exists hi, lo. destruct (Hbounds second) as [Hlo Hup].
  - right. by left.
  - by split_and!.
Defined.

Lemma get_dashboard_stats_answers_witness :
  ∃ stats, get_dashboard_stats (scheduler_of [train; archived]) = Returned stats
           ∧ stats_schedule_history stats = []
           ∧ total_jobs_submitted stats = 2%nat.
Proof.
  destruct (get_dashboard_stats_answers (scheduler_of [train; archived]))
    as (stats & Hs & Htotal & _ & _ & _ & _ & _ & Hall).
  exists stats. split_and!; [done| |done].
  apply Hall. simpl. lia.
Defined.

End MoreWitnesses.

(** ** The threshold policy, job by job *)

Section ThresholdPolicy.
Import JobQueue CarbonApi CarbonScheduler Policy Examples.

(** C1, as the spec states it, fails when two jobs share an id: the
    status goes to the first job carrying the id, so the later pending job
    is handled by the loop (intensity 150 against its threshold 100) and
    is not deferred. *)
Lemma shared_id_threshold_counterexample :
  ¬ (∀ self region resp raw now (i : nat) job,
       job_queue self !! i = Some job →
       status job = PENDING →
       let intensity :=
         carbonIntensity (get_grid_carbon_intensity region resp raw now) in
       let self' := (schedule_pending_jobs self region resp raw now).1 in
       (num_lt intensity (carbon_intensity_threshold job) = true →
        status <$> job_queue self' !! i = Some SCHEDULED)
       ∧ (num_ge intensity (carbon_intensity_threshold job) = true →
          status <$> job_queue self' !! i = Some DEFERRED)).
Proof.
  intros H.
  destruct (H (scheduler_of [train; twin]) "X"%string (ok 150) 0 1000
              1%nat twin eq_refl eq_refl) as [_ Hdeferred].
  specialize (Hdeferred eq_refl). vm_compute in Hdeferred.
  discriminate Hdeferred.
Qed.

(** One turn of the loop, seen from a job whose id no other job has. *)
Lemma schedule_job_unshared ci now (jobs : jobs_t) sc df (r i : nat) job :
  jobs !! i = Some job →
  (∀ k : nat, (job_id <$> jobs) !! k = Some (job_id job) → k = i) →
  is_Some (jobs !! r) →
  (schedule_job ci now (jobs, sc, df) r).1.1 !! i
  = Some (if decide (r = i) then decide_job ci now job else job).
Proof.
  intros Hi Huniq [jr Hr].
  assert (∀ s,
            (update_job_status jobs (job_id jr) s).1
            = alter (set_status s) (if decide (r = i) then i else r) jobs
            ∨ (r ≠ i ∧ (update_job_status jobs (job_id jr) s).1 !! i
                       = Some job)) as Hupd.
  { intros s. rewrite update_job_status_find.
    destruct (list_find _ jobs) as [[first jf]|] eqn:E.
    - apply list_find_Some in E as (Hfirst & Hid & _). cbn [fst].
      destruct (decide (r = i)) as [->|Hne].
      + left. assert (jr = job) as -> by congruence.
        assert (first = i) as ->; [|done].
        apply Huniq. by rewrite list_lookup_fmap, Hfirst, <- Hid.
      + right. split; [done|].
        rewrite list_lookup_alter_ne; [done|]. intros ->.
        apply Hne, Huniq. rewrite list_lookup_fmap, Hr. simpl.
        f_equal. assert (jf = job) by congruence. congruence.
    - apply list_find_None in E. rewrite Forall_forall in E.
      destruct (E jr); [by eapply list_elem_of_lookup_2|done]. }
  unfold schedule_job, decide_job. rewrite Hr.
  destruct (decide (r = i)) as [->|Hne].
  - assert (jr = job) as -> by congruence.
    destruct (num_lt ci _); cbn [fst];
      (destruct (Hupd SCHEDULED) as [Hs|[? _]]; [|done]);
      (destruct (Hupd DEFERRED) as [Hd|[? _]]; [|done]);
      rewrite ?Hs, ?Hd, !list_lookup_alter_eq, Hi; done.
  - destruct (num_lt ci _); cbn [fst];
      rewrite list_lookup_alter_ne by done.
    + by destruct (Hupd SCHEDULED) as [Hs|[_ Hs]];
        [rewrite Hs, list_lookup_alter_ne|].
    + by destruct (Hupd DEFERRED) as [Hd|[_ Hd]];
        [rewrite Hd, list_lookup_alter_ne|].
Qed.

Lemma schedule_loop_unshared ci now (refs : list nat)
    (acc : jobs_t * list nat * list nat) (i : nat) job :
  acc.1.1 !! i = Some job →
  (∀ k : nat, (job_id <$> acc.1.1) !! k = Some (job_id job) → k = i) →
  (∀ r, r ∈ refs → is_Some (acc.1.1 !! r)) →
  (foldl (schedule_job ci now) acc refs).1.1 !! i
  = Some (if decide (i ∈ refs) then decide_job ci now job else job).
Proof.
  revert acc job.
  induction refs as [|r refs IH]; intros [[jobs sc] df] job Hi Huniq Hrefs;
    cbn [fst] in *; [done|].
  cbn [foldl].
  pose proof (schedule_job_unshared ci now jobs sc df r i job Hi Huniq) as Hstep.
  destruct (schedule_job_lists ci now jobs sc df r) as (Hst & _ & _);
    [apply Hrefs; by left|].
  destruct (schedule_job ci now (jobs, sc, df) r) as [[jobs1 sc1] df1].
  cbn [fst] in *. apply static_job_ids in Hst as Hids.
  specialize (Hstep (Hrefs r ltac:(by left))).
  rewrite (IH (jobs1, sc1, df1)
             (if decide (r = i) then decide_job ci now job else job)).
  - destruct (decide (r = i)) as [->|Hne].
    + rewrite (decide_True (P := i ∈ i :: refs)) by (by left).
      destruct (decide (i ∈ refs)); [by rewrite decide_job_idemp|done].
    + destruct (decide (i ∈ refs)) as [Hin|Hnin].
      * by rewrite (decide_True (P := i ∈ r :: refs)) by (by right).
      * rewrite (decide_False (P := i ∈ r :: refs)); [done|].
        intros [?|?]%elem_of_cons; [by apply Hne|done].
  - done.
  - cbn. rewrite Hids. intros k Hk. apply Huniq.
    by destruct (decide (r = i)); rewrite ?decide_job_job_id in Hk.
  - intros r' Hr'. cbn. eapply static_is_Some; [done|]. apply Hrefs. by right.
Qed.

(** C1, amended.  In an evaluation cycle every job the cycle considers
    (every pending job of the store) whose id no other job of the store
    carries ends up [SCHEDULED], for now, when the fetched intensity is
    strictly below its threshold and [DEFERRED], for six hours from now,
    when the intensity is at or above it, equality included. *)
Theorem schedule_pending_jobs_threshold self region resp raw now (i : nat) job :
  job_queue self !! i = Some job →
  status job = PENDING →
  (∀ (k : nat) other,
     job_queue self !! k = Some other → job_id other = job_id job → k = i) →
  let intensity :=
    carbonIntensity (get_grid_carbon_intensity region resp raw now) in
  let self' := (schedule_pending_jobs self region resp raw now).1 in
  job ∈ get_prioritized_queue (job_queue self)
  ∧ (num_lt intensity (carbon_intensity_threshold job) = true →
     job_queue self' !! i
     = Some (set_scheduled_for now (set_status SCHEDULED job)))
  ∧ (num_ge intensity (carbon_intensity_threshold job) = true →
     job_queue self' !! i
     = Some (set_scheduled_for (now + six_hours) (set_status DEFERRED job))).
Proof.
  intros Hi Hst Huniq intensity self'.
  assert (i ∈ prioritized_refs (job_queue self)) as Hin
    by (apply prioritized_refs_pending; eauto).
  split.
  - unfold get_prioritized_queue, get_jobs_by_status.
    rewrite sorted_reverse_perm. apply list_elem_of_filter.
    split; [done|]. by eapply list_elem_of_lookup_2.
  - assert (job_queue self' !! i = Some (decide_job intensity now job))
      as Hfinal.
    { unfold self', schedule_pending_jobs. fold intensity.
      pose proof (schedule_loop_unshared intensity now
                    (prioritized_refs (job_queue self))
                    (job_queue self, [], []) i job Hi) as Hloop.
      cbn [fst] in Hloop. rewrite decide_True in Hloop by done.
      destruct (foldl _ _ _) as [[jobs sc] df]. cbn [fst job_queue] in *.
      apply Hloop; [|apply prioritized_refs_is_Some].
      intros k Hk. rewrite list_lookup_fmap in Hk.
      destruct (job_queue self !! k) as [other|] eqn:Ek; [|done].
      apply (Huniq k other); [done|]. simpl in Hk. congruence. }
    rewrite Hfinal. unfold decide_job. split.
    + by intros ->.
    + by intros ->%num_ge_not_lt.
Qed.

Lemma schedule_pending_jobs_threshold_witness :
  let self := scheduler_of [train; render] in
  let self' := (schedule_pending_jobs self "X" (ok 150) 0 1000).1 in
  status <$> job_queue self' !! 0%nat = Some SCHEDULED
  ∧ status <$> job_queue self' !! 1%nat = Some DEFERRED.
Proof.
  intros self self'. split.
  - destruct (schedule_pending_jobs_threshold self "X" (ok 150) 0 1000
                0%nat train eq_refl eq_refl) as (_ & Hs & _).
    + intros [|[|k]] other Hk Hid; simpl in Hk; [done| |done].
      injection Hk as <-. discriminate Hid.
    + unfold self'. rewrite Hs; reflexivity.
  - destruct (schedule_pending_jobs_threshold self "X" (ok 150) 0 1000
                1%nat render eq_refl eq_refl) as (_ & _ & Hd).
    + intros [|[|k]] other Hk Hid; simpl in Hk; [|done|done].
      injection Hk as <-. discriminate Hid.
    + unfold self'. rewrite Hd; reflexivity.
Defined.

End ThresholdPolicy.

(** ** Running a job, whatever its status *)

Section RunAnyStatus.
Import JobQueue CarbonScheduler Policy Examples.

(** C3, amended.  [run_scheduled_job] checks no status and raises no
    transition error.  For the job it finds, the first job of the store
    carrying the id, whatever the status of that job (also [COMPLETED]),
    with a duration that is not negative: the update to [RUNNING] reaches
    that job and no other; a bracket is opened for the job's name at the
    starting time; closing the bracket returns one record (the job's name,
    the measured emissions, the elapsed seconds) and appends it to the
    log; the emissions are copied onto the job; the update to [COMPLETED]
    reaches that job; the completed result is returned.  Every other job,
    a later job with the same id included, and the schedule history are
    as before. *)
Theorem run_scheduled_job_any_status
    self id (i : nat) job online emissions started stopped :
  list_find (λ j, job_id j = id) (job_queue self) = Some (i, job) →
  0 <= duration_minutes job →
  let ledger := emissions_tracker self in
  let seconds := (inject_Z (stopped - started) / 1000000)%Q in
  let record :=
    EmissionsTracker.mkRecord (name job) emissions seconds stopped
      (EmissionsTracker.country_code ledger) in
  let running := (update_job_status (job_queue self) id RUNNING).1 in
  let opened :=
    (EmissionsTracker.start_tracking ledger (name job) online started).1 in
  let closed := (EmissionsTracker.stop_tracking opened emissions stopped).1 in
  let measured := alter (set_emissions_avoided_kg emissions) i running in
  let '(self', result) :=
    run_scheduled_job self id online emissions started stopped in
  (running = alter (set_status RUNNING) i (job_queue self)
   ∧ running !! i = Some (set_status RUNNING job))
  ∧ (EmissionsTracker.tracker opened
     = Some (if online
             then EmissionsTracker.EmissionsTracker ("greengl_" +:+ name job)
             else EmissionsTracker.OfflineEmissionsTracker
                    (EmissionsTracker.country_code ledger))
     ∧ EmissionsTracker.current_job opened = Some (name job)
     ∧ EmissionsTracker.start_time opened = Some started
     ∧ EmissionsTracker.emissions_log opened
       = EmissionsTracker.emissions_log ledger)
  ∧ (EmissionsTracker.stop_tracking opened emissions stopped
     = (closed, Returned (Some record))
     ∧ EmissionsTracker.emissions_log closed
       = EmissionsTracker.emissions_log ledger ++ [record])
  ∧ (emissions_tracker self' = closed
     ∧ job_queue self' = (update_job_status measured id COMPLETED).1
     ∧ job_queue self' = alter (run_job emissions) i (job_queue self)
     ∧ job_queue self' !! i
       = Some (set_status COMPLETED
                 (set_emissions_avoided_kg emissions job))
     ∧ (∀ k : nat, k ≠ i → job_queue self' !! k = job_queue self !! k)
     ∧ schedule_history self' = schedule_history self)
  ∧ result = Returned (Completed id emissions seconds).
Proof.
  intros Hfind Hdur ledger seconds record running opened closed measured.
  rewrite (run_scheduled_job_found _ _ i job) by done.
  assert (running = alter (set_status RUNNING) i (job_queue self)) as Hrun
    by (unfold running; by rewrite update_job_status_find, Hfind).
  pose proof (list_find_alter (set_status RUNNING) _ _ _ _
                (set_status_job_id RUNNING) Hfind) as Hfind1.
  pose proof (list_find_alter (set_emissions_avoided_kg emissions) _ _ _ _
                (λ j, eq_refl) Hfind1) as Hfind2.
  apply list_find_Some in Hfind as (Hi & _ & _).
  cbn [job_queue emissions_tracker schedule_history].
  split_and!; try done.
  - by rewrite Hrun, list_lookup_alter_eq, Hi.
  - unfold measured. rewrite Hrun, update_job_status_find, Hfind2.
    cbn [fst]. by rewrite !list_alter_alter_eq.
  - by rewrite list_lookup_alter_eq, Hi.
  - intros k Hk. by rewrite list_lookup_alter_ne.
Qed.

Lemma run_scheduled_job_any_status_witness :
  let '(self', result) :=
    run_scheduled_job (scheduler_of [completed_train; twin]) "3f9a1c07" true
      (1 # 2) 0 5000000 in
  result
  = Returned (Completed "3f9a1c07" (1 # 2) (inject_Z 5000000 / 1000000)%Q)
  ∧ job_queue self' !! 0%nat
    = Some (set_status COMPLETED
              (set_emissions_avoided_kg (1 # 2) completed_train))
  ∧ job_queue self' !! 1%nat = Some twin
  ∧ length (EmissionsTracker.emissions_log (emissions_tracker self')) = 1%nat.
Proof.
  pose proof (run_scheduled_job_any_status
                (scheduler_of [completed_train; twin])
                "3f9a1c07" 0%nat completed_train true (1 # 2)%Q 0 5000000
                eq_refl) as H.
  assert (0 <= duration_minutes completed_train) as Hd
    by (vm_compute; discriminate).
  specialize (H Hd). cbv zeta in H.
  destruct (run_scheduled_job _ _ _ _ _ _) as [self' result].
  destruct H as (_ & _ & (_ & Hlog) & (Hled & _ & _ & Hjob & Hrest & _) & Hr).
  split_and!.
  - exact Hr.
  - exact Hjob.
  - by rewrite (Hrest 1%nat).
  - by rewrite Hled, Hlog.
Defined.

End RunAnyStatus.
